(** * libyang input handlers, parser context checks and LYB constants

    A shallow embedding of [src/in.c] and [src/lyb.h], and the properties
    the format description states about them.

    Conventions of the embedding:
    - [size_t] is the 64-bit unsigned type; a value converted to it is
      reduced modulo [2^64] ([to_size_t]);
    - a pointer is its address, a [Z]; [NULL] is address 0.  Pointer
      arithmetic is plain addition of addresses, the difference of two
      pointers converted to [size_t] wraps as the C conversion does.  The
      sum [p + n] is the C pointer as long as it is an address,
      [0 <= p + n < 2^64]; a property that speaks of an advanced pointer
      where nothing bounds it (a handler without a length) assumes so;
    - an out-parameter [T **p] is an [option (option T')]: [None] is a
      [NULL] [p], [Some c] is a valid [p] whose cell holds [c];
    - calls that leave [in.c] (mapping, allocation, opening a file) read
      their answer from a [system] record and are written to a trace. *)

From Stdlib Require Import ZArith List Bool String Lia.
From Stdlib Require Import Strings.Byte Strings.Ascii.
Import ListNotations.
Local Open Scope Z_scope.

(** ** C types shared by the two files *)

Definition SIZE_BITS : Z := 64.

Definition to_size_t (z : Z) : Z := z mod 2 ^ SIZE_BITS.

Definition in_size_t (z : Z) : Prop := 0 <= z < 2 ^ SIZE_BITS.

Definition UINT8_MAX : Z := 255.

Definition to_uint8 (z : Z) : Z := z mod 256.

Definition NULL : Z := 0.

(** The members of [LY_ERR] that [in.c] names. *)
Inductive LY_ERR : Set :=
| LY_SUCCESS
| LY_EMEM
| LY_ESYS
| LY_EINVAL
| LY_EVALID
| LY_EDENIED.

Module LyIn.

(** ** Input handlers ([in.c]) *)

Inductive LY_IN_TYPE : Set :=
| LY_IN_ERROR
| LY_IN_FD
| LY_IN_FILE
| LY_IN_FILEPATH
| LY_IN_MEMORY.

(** The [method] union of a handler; [method_zero] is the all-zero union
    that [calloc] leaves. *)
Inductive ly_in_method : Set :=
| method_zero
| method_fd (fd : Z)
| method_f (f : Z)
| method_fpath (fd : Z) (filepath : string).

Record ly_in : Set := mk_ly_in {
  type : LY_IN_TYPE;
  current : Z;
  func_start : Z;
  start : Z;
  length : Z;
  method : ly_in_method
}.

Definition set_current (i : ly_in) (p : Z) : ly_in :=
  mk_ly_in (type i) p (func_start i) (start i) (length i) (method i).

Definition set_type_method (i : ly_in) (t : LY_IN_TYPE) (m : ly_in_method) : ly_in :=
  mk_ly_in t (current i) (func_start i) (start i) (length i) m.

(** What the functions called from [in.c] answer, and the trace of the
    calls made. *)
Record system : Type := mk_system {
  ly_mmap : Z -> LY_ERR * Z * Z;   (* fd -> (return value, *length, *addr) *)
  calloc_ok : bool;                (* does calloc() return memory *)
  fileno : Z -> Z;                 (* FILE * -> descriptor *)
  c_open : string -> Z             (* open(path, O_RDONLY) *)
}.

Inductive event : Set :=
| ev_logarg (arg : string)
| ev_logerr (code : LY_ERR) (msg : string)
| ev_logmem
| ev_mmap (fd : Z)
| ev_munmap (addr len : Z)
| ev_calloc
| ev_open (path : string)
| ev_free_path (path : string).

Definition outcome : Type := LY_ERR * option (option ly_in) * list event.

Definition ret_of (o : outcome) : LY_ERR := fst (fst o).
Definition cell_of (o : outcome) : option (option ly_in) := snd (fst o).
Definition trace_of (o : outcome) : list event := snd o.


(** [ly_in_new_fd] *)
Definition ly_in_new_fd (sys : system) (fd : Z) (inp : option (option ly_in)) : outcome :=
  if fd <? 0 then (LY_EINVAL, inp, [ev_logarg "fd >= 0"])
  else match inp with
  | None => (LY_EINVAL, None, [ev_logarg "in"])
  | Some cell =>
    match ly_mmap sys fd with
    | (LY_SUCCESS, len, addr) =>
      if addr =? NULL then
        (LY_EINVAL, Some cell, [ev_mmap fd; ev_logerr LY_EINVAL "Empty input file."])
      else if calloc_ok sys then
        (LY_SUCCESS,
         Some (Some (mk_ly_in LY_IN_FD addr addr addr len (method_fd fd))),
         [ev_mmap fd; ev_calloc])
      else
        (LY_EMEM, Some None, [ev_mmap fd; ev_calloc; ev_logmem; ev_munmap addr len])
    | (e, _, _) => (e, Some cell, [ev_mmap fd])
    end
  end.

(** [ly_in_new_file]; [f] is the [FILE *]. *)
Definition ly_in_new_file (sys : system) (f : Z) (inp : option (option ly_in)) : outcome :=
  if f =? NULL then (LY_EINVAL, inp, [ev_logarg "f"])
  else match inp with
  | None => (LY_EINVAL, None, [ev_logarg "in"])
  | Some _ =>
    match ly_in_new_fd sys (fileno sys f) inp with
    | (LY_SUCCESS, Some (Some h), tr) =>
      (LY_SUCCESS, Some (Some (set_type_method h LY_IN_FILE (method_f f))), tr)
    | o => o
    end
  end.

(** [ly_in_new_memory]; [str] is the address of the data. *)
Definition ly_in_new_memory (sys : system) (str : Z) (inp : option (option ly_in)) : outcome :=
  if str =? NULL then (LY_EINVAL, inp, [ev_logarg "str"])
  else match inp with
  | None => (LY_EINVAL, None, [ev_logarg "in"])
  | Some _ =>
    if calloc_ok sys then
      (LY_SUCCESS, Some (Some (mk_ly_in LY_IN_MEMORY str str str 0 method_zero)), [ev_calloc])
    else (LY_EMEM, Some None, [ev_calloc; ev_logmem])
  end.

(** [ly_in_reset] *)
Definition ly_in_reset (i : option ly_in) : LY_ERR * option ly_in :=
  match i with
  | None => (LY_EINVAL, None)
  | Some h =>
    (LY_SUCCESS,
     Some (mk_ly_in (type h) (start h) (start h) (start h) (length h) (method h)))
  end.

(** [strndup(filepath, len)] when [len] is not 0, [strdup(filepath)] otherwise. *)
Definition dup_path (filepath : string) (len : Z) : string :=
  if len =? 0 then filepath else String.substring 0 (Z.to_nat len) filepath.

(** [ly_in_new_filepath]; a [NULL] [filepath] is [None]. *)
Definition ly_in_new_filepath (sys : system) (filepath : option string) (len : Z)
    (inp : option (option ly_in)) : outcome :=
  match filepath with
  | None => (LY_EINVAL, inp, [ev_logarg "filepath"])
  | Some path =>
    match inp with
    | None => (LY_EINVAL, None, [ev_logarg "in"])
    | Some _ =>
      let fp := dup_path path len in
      let fd := c_open sys fp in
      if fd =? -1 then
        (LY_ESYS, inp, [ev_open fp; ev_logerr LY_ESYS "Failed to open file."; ev_free_path fp])
      else
        match ly_in_new_fd sys fd inp with
        | (LY_SUCCESS, Some (Some h), tr) =>
          (LY_SUCCESS,
           Some (Some (set_type_method h LY_IN_FILEPATH (method_fpath fd fp))),
           ev_open fp :: tr)
        | (e, c, tr) => (e, c, ev_open fp :: tr ++ [ev_free_path fp])
        end
    end
  end.

(** The bytes [memcpy] copies: [count] bytes of memory from address [p]. *)
Definition mem_bytes (mem : Z -> byte) (p count : Z) : list byte :=
  map (fun k => mem (p + Z.of_nat k)) (seq 0 (Z.to_nat count)).

(** The end-of-input test shared by [ly_in_read] and [ly_in_skip]. *)
Definition at_eof (i : ly_in) (count : Z) : bool :=
  negb (length i =? 0)
  && (to_size_t (length i - to_size_t (current i - start i)) <? count).

(** [ly_in_read]: the return value, the handler afterwards, and the bytes
    written to [buf] ([None]: [buf] is not touched). *)
Definition ly_in_read (mem : Z -> byte) (i : ly_in) (count : Z)
    : LY_ERR * ly_in * option (list byte) :=
  if at_eof i count then (LY_EDENIED, i, None)
  else (LY_SUCCESS, set_current i (current i + count), Some (mem_bytes mem (current i) count)).

(** [ly_in_parsed] *)
Definition ly_in_parsed (i : ly_in) : Z := to_size_t (current i - func_start i).

(** [ly_in_skip] *)
Definition ly_in_skip (i : ly_in) (count : Z) : LY_ERR * ly_in :=
  if at_eof i count then (LY_EDENIED, i)
  else (LY_SUCCESS, set_current i (current i + count)).

(** *** Notions used to state the properties of the handlers *)

(** When the handler knows its length, [current] is inside the [length]
    bytes that begin at [start]. *)
Definition inside (i : ly_in) : Prop :=
  in_size_t (length i)
  /\ (length i <> 0 -> 0 <= current i - start i <= length i).

(** A handler whose pointers are in order as well:
    [start <= func_start <= current]. *)
Definition positioned (i : ly_in) : Prop :=
  inside i /\ 0 <= start i /\ start i <= func_start i /\ func_start i <= current i.

(** A handler as [ly_in_read] and [ly_in_skip] leave it. *)
Definition after_read (r : LY_ERR * ly_in * option (list byte)) : ly_in := snd (fst r).
Definition read_ret (r : LY_ERR * ly_in * option (list byte)) : LY_ERR := fst (fst r).

(** The data a handler reads from: the bytes and the address of the first. *)
Record source : Set := mk_source {
  src_base : Z;
  src_bytes : list byte
}.

Definition src_mem (s : source) (a : Z) : byte :=
  if (src_base s <=? a) && (a <? src_base s + Z.of_nat (List.length (src_bytes s)))
  then nth (Z.to_nat (a - src_base s)) (src_bytes s) x00
  else x00.

(** Bytes of the source that lie at or after the current position. *)
Definition remaining (s : source) (i : ly_in) : Z :=
  Z.of_nat (List.length (src_bytes s)) - (current i - src_base s).

(** Reading and skipping [n] bytes judged against the bytes that remain in
    the source: an end-of-input error and no move when fewer than [n]
    remain, success and a move by [n] otherwise. *)
Definition bounded_by_source (s : source) (i : ly_in) (n : Z) : Prop :=
  let r := ly_in_read (src_mem s) i n in
  let k := ly_in_skip i n in
  if remaining s i <? n then
    read_ret r = LY_EDENIED /\ current (after_read r) = current i
    /\ fst k = LY_EDENIED /\ current (snd k) = current i
  else
    read_ret r = LY_SUCCESS /\ current (after_read r) = current i + n
    /\ fst k = LY_SUCCESS /\ current (snd k) = current i + n.

(** The [ly_munmap] calls of a trace. *)
Fixpoint munmap_calls (tr : list event) : list (Z * Z) :=
  match tr with
  | [] => []
  | ev_munmap addr len :: tr' => (addr, len) :: munmap_calls tr'
  | _ :: tr' => munmap_calls tr'
  end.

(** [ly_mmap] reports an empty file: it succeeds and leaves [NULL] in
    [*addr]. *)
Definition empty_file (sys : system) (fd : Z) : Prop :=
  exists len, ly_mmap sys fd = (LY_SUCCESS, len, NULL).

(** A failed creation that hands out no handler and has released a mapping. *)
Definition refused_and_unmapped (inp : option (option ly_in)) (o : outcome) : Prop :=
  ret_of o = LY_EINVAL /\ cell_of o = inp /\ munmap_calls (trace_of o) <> [].

(** A failed creation that hands out no handler and has called no
    [ly_munmap]. *)
Definition refused_nothing_mapped (inp : option (option ly_in)) (o : outcome) : Prop :=
  ret_of o = LY_EINVAL /\ cell_of o = inp /\ munmap_calls (trace_of o) = [].

(** *** Sample inputs *)

(** A system on which every descriptor is an empty file. *)
Definition sys_empty : system :=
  mk_system (fun _ => (LY_SUCCESS, 0, NULL)) true (fun f => 3) (fun _ => 3).

(** A system that maps every file as 16 bytes at address 4096. *)
Definition sys_mapped : system :=
  mk_system (fun _ => (LY_SUCCESS, 16, 4096)) true (fun f => 3) (fun _ => 3).

(** The C string "ab" at address 4096. *)
Definition src_ab : source := mk_source 4096 [x61; x62; x00].

(** The handler [ly_in_new_memory] makes for it. *)
Definition in_ab : ly_in := mk_ly_in LY_IN_MEMORY 4096 4096 4096 0 method_zero.

(** A descriptor handler over 16 mapped bytes, 12 of them consumed, 4 of
    those since the function-start mark. *)
Definition in_fd16 : ly_in := mk_ly_in LY_IN_FD 4108 4104 4096 16 (method_fd 3).

End LyIn.

Module LydParser.

(** ** Parser context checks ([in.c], second half) *)

(** The flag values come from headers that are not part of the two
    files; the functions are written over any assignment of them. *)
Class header_flags : Set := mk_header_flags {
  LYD_PARSE_ONLY : Z;
  LYD_PARSE_NO_STATE : Z;
  LYD_INTOPT_RPC : Z;
  LYD_INTOPT_NOTIF : Z;
  LYD_INTOPT_REPLY : Z;
  LYS_CONFIG_R : Z;
  LYS_RPC : Z;
  LYS_ACTION : Z;
  LYS_NOTIF : Z
}.

(** The C truth value of [a & b]. *)
Definition flag_set (a b : Z) : bool := negb (Z.land a b =? 0).

Record lysc_node : Set := mk_lysc_node {
  nodetype : Z;
  flags : Z;
  name : string
}.

(** [struct ly_set] as the sequence of its objects (addresses). *)
Definition ly_set : Set := list Z.

Record lyd_ctx : Set := mk_lyd_ctx {
  parse_options : Z;
  int_opts : Z;
  op_node : Z;
  node_types : ly_set;
  meta_types : ly_set;
  node_when : ly_set
}.

Definition set_node_types (c : lyd_ctx) (s : ly_set) : lyd_ctx :=
  mk_lyd_ctx (parse_options c) (int_opts c) (op_node c) s (meta_types c) (node_when c).

Definition set_meta_types (c : lyd_ctx) (s : ly_set) : lyd_ctx :=
  mk_lyd_ctx (parse_options c) (int_opts c) (op_node c) (node_types c) s (node_when c).

(** Functions on the parser context: the context goes in and comes out. *)
Definition parser (A : Type) : Type := lyd_ctx -> A * lyd_ctx.

Definition pure {A} (a : A) : parser A := fun c => (a, c).

Definition bind {A B} (m : parser A) (k : A -> parser B) : parser B :=
  fun c => let (a, c') := m c in k a c'.

Definition gets {A} (f : lyd_ctx -> A) : parser A := fun c => (f c, c).

Definition modify (f : lyd_ctx -> lyd_ctx) : parser unit := fun c => (tt, f c).

Notation "x <- m ;; k" := (bind m (fun x => k))
  (at level 61, m at next level, right associativity).

(** The arguments a parser hands through to value creation unread. *)
Record value_args : Set := mk_value_args {
  value : string;
  value_len : Z;
  dynamic : bool;
  format : Z;
  prefix_data : Z;
  hints : Z
}.

(** Modelled from the spec: [ly_set_add] ([set.c]) is not part of the two
    files.  Section 4.6 names the operations [add_node_type] and
    [add_meta_type], which accumulate items for the later resolution
    pass; section 7 makes an allocation failure for the deferred sets
    fatal.  [grow_ok] says whether the allocation succeeds; the set is
    used as a list (third argument 1), so nothing is dropped as a
    duplicate. *)
Definition ly_set_add (grow_ok : bool) (set : ly_set) (object : Z) : LY_ERR * ly_set :=
  if grow_ok then (LY_SUCCESS, set ++ [object]) else (LY_EMEM, set).

Section Parser.

Context {F : header_flags}.

(** Value creation is done outside [in.c]: [lyd_create_term] answers with
    its return value, [*incomplete] and [*node]; [lyd_create_meta] with
    its return value, [*incomplete] and what it leaves in [*meta]. *)
Variable lyd_create_term : lysc_node -> value_args -> LY_ERR * bool * Z.
Variable lyd_create_meta : Z -> option Z -> Z -> string -> Z -> value_args -> LY_ERR * bool * Z.
Variable grow_ok : bool.

(** The no-state test at the head of [lyd_parser_check_schema]. *)
Definition state_rejected (lydctx : lyd_ctx) (snode : lysc_node) : bool :=
  flag_set (parse_options lydctx) LYD_PARSE_NO_STATE
  && flag_set (flags snode) LYS_CONFIG_R.

(** The RPC/action/notification tests that follow it. *)
Definition check_operation (lydctx : lyd_ctx) (snode : lysc_node) : LY_ERR :=
  if flag_set (nodetype snode) (Z.lor LYS_RPC LYS_ACTION) then
    if flag_set (int_opts lydctx) (Z.lor LYD_INTOPT_RPC LYD_INTOPT_REPLY) then
      if negb (op_node lydctx =? NULL) then LY_EVALID else LY_SUCCESS
    else LY_EVALID
  else if nodetype snode =? LYS_NOTIF then
    if flag_set (int_opts lydctx) LYD_INTOPT_NOTIF then
      if negb (op_node lydctx =? NULL) then LY_EVALID else LY_SUCCESS
    else LY_EVALID
  else LY_SUCCESS.

(** [lyd_parser_check_schema]; the log entries it makes are not kept. *)
Definition lyd_parser_check_schema (snode : lysc_node) : parser LY_ERR :=
  lydctx <- gets (fun c => c) ;;
  if state_rejected lydctx snode then pure LY_EVALID
  else pure (check_operation lydctx snode).

(** [lyd_parser_create_term]: the return value and [*node]. *)
Definition lyd_parser_create_term (schema : lysc_node) (a : value_args)
    : parser (LY_ERR * Z) :=
  match lyd_create_term schema a with
  | (LY_SUCCESS, incomplete, node) =>
    opts <- gets parse_options ;;
    if incomplete && negb (flag_set opts LYD_PARSE_ONLY) then
      types <- gets node_types ;;
      match ly_set_add grow_ok types node with
      | (LY_SUCCESS, types') =>
        _ <- modify (fun c => set_node_types c types') ;;
        pure (LY_SUCCESS, node)
      | (e, _) => pure (e, node)
      end
    else pure (LY_SUCCESS, node)
  | (e, _, node) => pure (e, node)
  end.

(** [lyd_parser_create_meta]: [meta] is [None] for a [NULL] pointer and
    [Some m] for a pointer to a cell holding [m].  The result is [None]
    when the function reads [*meta] through a [NULL] [meta]; otherwise
    the return value and the cell afterwards. *)
Definition lyd_parser_create_meta (parent : Z) (meta : option Z) (mod_ : Z)
    (name_ : string) (name_len : Z) (a : value_args)
    : parser (option (LY_ERR * option Z)) :=
  let first := match meta with
               | Some m => m
               | None => NULL
               end in
  match lyd_create_meta parent meta mod_ name_ name_len a with
  | (LY_SUCCESS, incomplete, created) =>
    let cell := option_map (fun _ => created) meta in
    let finish := pure (Some (LY_SUCCESS,
                    if first =? NULL then cell else option_map (fun _ => first) meta)) in
    opts <- gets parse_options ;;
    if incomplete && negb (flag_set opts LYD_PARSE_ONLY) then
      match cell with
      | None => pure None
      | Some m =>
        types <- gets meta_types ;;
        match ly_set_add grow_ok types m with
        | (LY_SUCCESS, types') =>
          _ <- modify (fun c => set_meta_types c types') ;;
          finish
        | (e, _) => pure (Some (e, cell))
        end
      end
    else finish
  | (e, _, created) => pure (Some (e, option_map (fun _ => created) meta))
  end.

(** *** Notions used to state the properties of the checks *)

(** The node is an RPC or an action: its type has one of the two bits. *)
Definition rpc_or_action (snode : lysc_node) : Prop :=
  flag_set (nodetype snode) LYS_RPC = true \/ flag_set (nodetype snode) LYS_ACTION = true.

Definition notification (snode : lysc_node) : Prop := nodetype snode = LYS_NOTIF.

(** The caller asked for an RPC or for a reply to be parsed. *)
Definition rpc_mode (lydctx : lyd_ctx) : Prop :=
  flag_set (int_opts lydctx) LYD_INTOPT_RPC = true
  \/ flag_set (int_opts lydctx) LYD_INTOPT_REPLY = true.

Definition notif_mode (lydctx : lyd_ctx) : Prop :=
  flag_set (int_opts lydctx) LYD_INTOPT_NOTIF = true.

(** An operation node has been parsed already. *)
Definition op_parsed (lydctx : lyd_ctx) : Prop := op_node lydctx <> NULL.

(** The three ways an operation node is out of place. *)
Definition op_violation (lydctx : lyd_ctx) (snode : lysc_node) : Prop :=
  (rpc_or_action snode /\ ~ rpc_mode lydctx)
  \/ (notification snode /\ ~ notif_mode lydctx)
  \/ (((rpc_or_action snode /\ rpc_mode lydctx)
       \/ (notification snode /\ notif_mode lydctx))
      /\ op_parsed lydctx).

(** The type of a notification is not that of an RPC or an action. *)
Definition notif_is_no_rpc : Prop :=
  flag_set LYS_NOTIF (Z.lor LYS_RPC LYS_ACTION) = false.

(** The caller set the no-state option; the node is a state node. *)
Definition no_state (lydctx : lyd_ctx) : Prop :=
  flag_set (parse_options lydctx) LYD_PARSE_NO_STATE = true.

Definition state_node (snode : lysc_node) : Prop :=
  flag_set (flags snode) LYS_CONFIG_R = true.

(** Values are queued for the resolution pass unless the caller asked for
    parsing only. *)
Definition deferring (lydctx : lyd_ctx) : bool :=
  negb (flag_set (parse_options lydctx) LYD_PARSE_ONLY).

(** An incomplete value is in the set afterwards, a complete one leaves
    the set as it was. *)
Definition queued_if_incomplete (incomplete : bool) (object : Z)
    (before after : ly_set) : Prop :=
  if incomplete then In object after else after = before.

End Parser.

(** *** Sample inputs *)

(** One assignment of the flags, each a bit of its own. *)
Definition sample_flags : header_flags :=
  mk_header_flags 65536 524288 1 2 4 2 256 512 1024.

Definition ctx_of_options (opts iopts op : Z) : lyd_ctx := mk_lyd_ctx opts iopts op [] [] [].

Definition leaf_ref_args : value_args := mk_value_args "/a/b" 4 false 0 0 0.

(** Value creation that reports every value incomplete: the node is at
    address 77, the metadata at address 78. *)
Definition create_term_incomplete (s : lysc_node) (a : value_args) : LY_ERR * bool * Z :=
  (LY_SUCCESS, true, 77).

Definition create_meta_incomplete (parent : Z) (meta : option Z) (mod_ : Z)
    (name_ : string) (name_len : Z) (a : value_args) : LY_ERR * bool * Z :=
  (LY_SUCCESS, true, 78).

End LydParser.

Module Lyb.

(** ** The LYB format constants ([lyb.h]) *)

(** One frame of the printer and parser context ([struct lyd_lyb_subtree]);
    [inner_chunks] is a [uint8_t]. *)
Record lyd_lyb_subtree : Set := mk_lyd_lyb_subtree {
  written : Z;
  position : Z;
  inner_chunks : Z
}.

Definition LYB_SUBTREE_STEP : Z := 4.

Definition LYB_VERSION_NUM : Z := 0x10.

Definition LYB_VERSION_MASK : Z := 0x10.

Definition LYB_HASH_BITS : Z := 8.

Definition LYB_HASH_MASK : Z := 0x7f.

(** [LYB_HASH] is [uint8_t]. *)
Definition LYB_HASH (z : Z) : Z := to_uint8 z.

Definition LYB_HASH_COLLISION_ID : Z := 0x80.

Definition LYB_SIZE_BYTES : Z := 1.

Definition LYB_SIZE_MAX : Z := UINT8_MAX.

Definition LYB_INCHUNK_BYTES : Z := 1.

Definition LYB_INCHUNK_MAX : Z := UINT8_MAX.

Definition LYB_META_BYTES : Z := LYB_INCHUNK_BYTES + LYB_SIZE_BYTES.

(** Modelled from the spec: the function that puts a node hash together
    ([lyb_hash], in [lyb.c]) is not part of the two files.  Section 4.1 has
    it truncate the structural hash and set the marker bit that belongs to
    the collision id; [lyb.h] gives [LYB_HASH_MASK] as the mask for
    collision id 0 and has [LYB_HASH_COLLISION_ID] moved right by the
    collision number.  [full_hash] is the 32-bit structural hash of the
    node for this collision id. *)
Definition lyb_hash (full_hash collision_id : Z) : Z :=
  LYB_HASH (Z.lor (Z.land full_hash (Z.shiftr LYB_HASH_MASK collision_id))
                  (Z.shiftr LYB_HASH_COLLISION_ID collision_id)).

(** Zero bits of [hash] from bit [n - 1] down to the first bit that is 1. *)
Fixpoint leading_zeros (n : nat) (hash : Z) : Z :=
  match n with
  | O => 0
  | S n' => if Z.testbit hash (Z.of_nat n') then 0 else 1 + leading_zeros n' hash
  end.

(** The collision id a hash byte carries: its bits before the first 1. *)
Definition collision_id_of (hash : Z) : Z :=
  leading_zeros (Z.to_nat LYB_HASH_BITS) hash.

End Lyb.

Module LyInOps.

Import LyIn.

(** ** Replacing the data of a handler and freeing it ([in.c]) *)

(** Reads and stores of the members of the [method] union.  [method.fd]
    and [method.fpath.fd] are the same [int] at the head of the union:
    [ly_in_free] closes [method.fd] of a file path handler, and
    [ly_in_filepath] finds its file path again after [ly_in_fd] has stored
    [method.fd].  Any other read of a member that was not the one stored
    is left undefined ([None]). *)
Definition method_fd_of (m : ly_in_method) : option Z :=
  match m with
  | method_fd fd => Some fd
  | method_fpath fd _ => Some fd
  | _ => None
  end.

Definition method_f_of (m : ly_in_method) : option Z :=
  match m with
  | method_f f => Some f
  | _ => None
  end.

Definition method_filepath_of (m : ly_in_method) : option string :=
  match m with
  | method_fpath _ p => Some p
  | _ => None
  end.

Definition store_fd (m : ly_in_method) (fd : Z) : ly_in_method :=
  match m with
  | method_fpath _ p => method_fpath fd p
  | _ => method_fd fd
  end.

Definition set_type (i : ly_in) (t : LY_IN_TYPE) : ly_in :=
  set_type_method i t (method i).

(** [in->current = in->start = addr; in->length = length; in->method.fd = fd] *)
Definition remap (i : ly_in) (addr len fd : Z) : ly_in :=
  mk_ly_in (type i) addr (func_start i) addr len (store_fd (method i) fd).

(** [ly_in_fd]: the return value, the handler afterwards and the calls
    made. *)
Definition ly_in_fd (sys : system) (i : option ly_in) (fd : Z)
    : option (Z * option ly_in * list event) :=
  match i with
  | None => Some (-1, None, [ev_logarg "in"])
  | Some h =>
    match type h with
    | LY_IN_FD =>
      match method_fd_of (method h) with
      | None => None
      | Some prev_fd =>
        if fd =? -1 then Some (prev_fd, Some h, [])
        else
          match ly_mmap sys fd with
          | (LY_SUCCESS, len, addr) =>
            if addr =? NULL then
              Some (-1, Some h, [ev_mmap fd; ev_logerr LY_EINVAL "Empty input file."])
            else
              Some (prev_fd, Some (remap h addr len fd),
                    [ev_mmap fd; ev_munmap (start h) (length h)])
          | _ => Some (-1, Some h, [ev_mmap fd])
          end
      end
    | _ => Some (-1, Some h, [ev_logarg "in->type == LY_IN_FD"])
    end
  end.

(** [ly_in_file]; [f] and the return value are [FILE *]. *)
Definition ly_in_file (sys : system) (i : option ly_in) (f : Z)
    : option (Z * option ly_in * list event) :=
  match i with
  | None => Some (NULL, None, [ev_logarg "in"])
  | Some h =>
    match type h with
    | LY_IN_FILE =>
      match method_f_of (method h) with
      | None => None
      | Some prev_f =>
        if f =? NULL then Some (prev_f, Some h, [])
        else
          let h1 := set_type_method h LY_IN_FD (store_fd (method h) (fileno sys prev_f)) in
          match ly_in_fd sys (Some h1) (fileno sys f) with
          | Some (r, Some h2, tr) =>
            if r =? -1 then
              Some (NULL, Some (set_type_method h2 LY_IN_FILE (method_f prev_f)), tr)
            else
              Some (prev_f, Some (set_type_method h2 LY_IN_FILE (method_f f)), tr)
          | _ => None
          end
      end
    | _ => Some (NULL, Some h, [ev_logarg "in->type == LY_IN_FILE"])
    end
  end.

(** [ly_in_memory]; [str] and the return value are addresses. *)
Definition ly_in_memory (i : option ly_in) (str : Z) : Z * option ly_in * list event :=
  match i with
  | None => (NULL, None, [ev_logarg "in"])
  | Some h =>
    match type h with
    | LY_IN_MEMORY =>
      let data := current h in
      if str =? NULL then (data, Some h, [])
      else (data, Some (mk_ly_in (type h) str (func_start h) str (length h) (method h)), [])
    | _ => (NULL, Some h, [ev_logarg "in->type == LY_IN_MEMORY"])
    end
  end.

(** The calls of the functions below: those the creating functions make
    as well, and the releases. *)
Inductive call : Set :=
| made (e : event)
| call_close (fd : Z)
| call_fclose (f : Z)
| call_free (addr : Z)
| call_free_in
| call_logint.

(** What [ly_in_filepath] returns: [NULL], [(void * ) -1] or the file path
    of the handler. *)
Inductive path_ret : Set :=
| path_NULL
| path_minus_one
| path_is (p : string).

(** [ly_in_filepath]; a [NULL] [filepath] is [None]. *)
Definition ly_in_filepath (sys : system) (i : option ly_in) (filepath : option string)
    (len : Z) : option (path_ret * option ly_in * list call) :=
  let bad := match filepath with
             | Some _ => path_NULL
             | None => path_minus_one
             end in
  match i with
  | None => Some (bad, None, [made (ev_logarg "in")])
  | Some h =>
    match type h with
    | LY_IN_FILEPATH =>
      match filepath with
      | None =>
        match method_filepath_of (method h) with
        | Some p => Some (path_is p, Some h, [])
        | None => None
        end
      | Some path =>
        let fp := dup_path path len in
        let fd := c_open sys fp in
        if fd =? 0 then
          Some (path_NULL, Some h,
                [made (ev_open fp); made (ev_logerr LY_ESYS "Failed to open file.");
                 made (ev_free_path fp)])
        else
          match ly_in_fd sys (Some (set_type h LY_IN_FD)) fd with
          | Some (prev_fd, Some h2, tr) =>
            if prev_fd =? -1 then
              Some (path_NULL, Some (set_type h2 LY_IN_FILEPATH),
                    made (ev_open fp) :: map made tr ++ [made (ev_free_path fp)])
            else
              match method_filepath_of (method h2) with
              | Some old =>
                Some (path_NULL,
                      Some (set_type_method h2 LY_IN_FILEPATH (method_fpath fd fp)),
                      made (ev_open fp) :: map made tr
                      ++ [call_close prev_fd; made (ev_free_path old)])
              | None => None
              end
          | _ => None
          end
      end
    | _ => Some (bad, Some h, [made (ev_logarg "in->type == LY_IN_FILEPATH")])
    end
  end.

(** [ly_in_free]: the calls made. *)
Definition ly_in_free (i : option ly_in) (destroy : bool) : option (list call) :=
  match i with
  | None => Some []
  | Some h =>
    let unmap := made (ev_munmap (start h) (length h)) in
    let released :=
      match type h with
      | LY_IN_ERROR => None
      | LY_IN_MEMORY => Some (if destroy then [call_free (start h)] else [])
      | LY_IN_FILE =>
        if destroy then
          match method_f_of (method h) with
          | Some f => Some [unmap; call_fclose f]
          | None => None
          end
        else Some [unmap]
      | LY_IN_FD =>
        if destroy then
          match method_fd_of (method h) with
          | Some fd => Some [unmap; call_close fd]
          | None => None
          end
        else Some [unmap]
      | LY_IN_FILEPATH =>
        match method_fd_of (method h), method_filepath_of (method h) with
        | Some fd, Some p => Some [unmap; call_close fd; made (ev_free_path p)]
        | _, _ => None
        end
      end in
    match type h with
    | LY_IN_ERROR => Some [call_logint]
    | _ => option_map (fun l => l ++ [call_free_in]) released
    end
  end.

(** *** Notions used to state the properties *)

(** The union holds the member that the type of the handler names. *)
Definition typed (h : ly_in) : bool :=
  match type h, method h with
  | LY_IN_FD, method_fd _ => true
  | LY_IN_FILE, method_f _ => true
  | LY_IN_FILEPATH, method_fpath _ _ => true
  | LY_IN_MEMORY, _ => true
  | _, _ => false
  end.

(** The handler is over a mapping. *)
Definition mapped (h : ly_in) : bool :=
  match type h with
  | LY_IN_FD | LY_IN_FILE | LY_IN_FILEPATH => true
  | _ => false
  end.

Fixpoint closes (tr : list call) : list Z :=
  match tr with
  | [] => []
  | call_close fd :: tr' => fd :: closes tr'
  | _ :: tr' => closes tr'
  end.

Fixpoint fcloses (tr : list call) : list Z :=
  match tr with
  | [] => []
  | call_fclose f :: tr' => f :: fcloses tr'
  | _ :: tr' => fcloses tr'
  end.

Fixpoint freed_paths (tr : list event) : list string :=
  match tr with
  | [] => []
  | ev_free_path p :: tr' => p :: freed_paths tr'
  | _ :: tr' => freed_paths tr'
  end.

Fixpoint freed_data (tr : list call) : list Z :=
  match tr with
  | [] => []
  | call_free addr :: tr' => addr :: freed_data tr'
  | _ :: tr' => freed_data tr'
  end.

Fixpoint freed_handlers (tr : list call) : nat :=
  match tr with
  | [] => O
  | call_free_in :: tr' => S (freed_handlers tr')
  | _ :: tr' => freed_handlers tr'
  end.

(** [ly_mmap] hands out a mapping for [fd]: [len] bytes at [addr]. *)
Definition maps_to (sys : system) (fd addr len : Z) : Prop :=
  ly_mmap sys fd = (LY_SUCCESS, len, addr) /\ addr <> NULL.

(** [ly_mmap] hands out no mapping for [fd]: it fails or reports an empty
    file. *)
Definition maps_nothing (sys : system) (fd : Z) : Prop :=
  forall len addr, ly_mmap sys fd = (LY_SUCCESS, len, addr) -> addr = NULL.

(** The mappings [ly_mmap] hands out at the [ly_mmap] calls of a trace. *)
Definition acquired_at (sys : system) (fd : Z) : list (Z * Z) :=
  match ly_mmap sys fd with
  | (LY_SUCCESS, len, addr) => if addr =? NULL then [] else [(addr, len)]
  | _ => []
  end.

Fixpoint acquired (sys : system) (tr : list event) : list (Z * Z) :=
  match tr with
  | [] => []
  | ev_mmap fd :: tr' => acquired_at sys fd ++ acquired sys tr'
  | _ :: tr' => acquired sys tr'
  end.

(** The mapping a handler holds. *)
Definition owns (h : option ly_in) : list (Z * Z) :=
  match h with
  | Some i => if mapped i then [(start i, length i)] else []
  | None => []
  end.

(** The handler a cell holds, if any. *)
Definition held (c : option (option ly_in)) : option ly_in :=
  match c with
  | Some (Some h) => Some h
  | _ => None
  end.


(** The calls of a trace that the creating functions make as well. *)
Fixpoint events_of (tr : list call) : list event :=
  match tr with
  | [] => []
  | made e :: tr' => e :: events_of tr'
  | _ :: tr' => events_of tr'
  end.

(** The descriptors opened in a trace. *)
Fixpoint opens (sys : system) (tr : list event) : list Z :=
  match tr with
  | [] => []
  | ev_open p :: tr' => c_open sys p :: opens sys tr'
  | _ :: tr' => opens sys tr'
  end.

(** Skipping one count after the other: the handler at the end, and the
    total of the counts that were not refused. *)
Fixpoint consume (counts : list Z) (i : ly_in) : ly_in :=
  match counts with
  | [] => i
  | n :: rest => consume rest (snd (ly_in_skip i n))
  end.

Fixpoint accepted (counts : list Z) (i : ly_in) : Z :=
  match counts with
  | [] => 0
  | n :: rest =>
    match fst (ly_in_skip i n) with
    | LY_SUCCESS => n
    | _ => 0
    end + accepted rest (snd (ly_in_skip i n))
  end.

(** *** Sample inputs *)

(** Descriptor 3 is mapped as 16 bytes at 4096, descriptor 5 as 32 bytes
    at 8192, any other descriptor is an empty file; [FILE] 8 is over
    descriptor 3, [FILE] 9 over descriptor 5; every path opens as
    descriptor 5. *)
Definition sys_two : system :=
  mk_system
    (fun fd => if fd =? 3 then (LY_SUCCESS, 16, 4096)
               else if fd =? 5 then (LY_SUCCESS, 32, 8192)
               else (LY_SUCCESS, 0, NULL))
    true
    (fun f => if f =? 8 then 3 else if f =? 9 then 5 else -1)
    (fun _ => 5).

Definition in_fd3 : ly_in := mk_ly_in LY_IN_FD 4100 4098 4096 16 (method_fd 3).

Definition in_file8 : ly_in := mk_ly_in LY_IN_FILE 4100 4098 4096 16 (method_f 8).

(** A file handler over [FILE] 4, which has no descriptor. *)
Definition in_file4 : ly_in := mk_ly_in LY_IN_FILE 4100 4098 4096 16 (method_f 4).

Definition in_path3 : ly_in :=
  mk_ly_in LY_IN_FILEPATH 4100 4098 4096 16 (method_fpath 3 "a.lyb").

(** A file path handler in which -1 is stored as the descriptor. *)
Definition in_path_closed : ly_in :=
  mk_ly_in LY_IN_FILEPATH 4100 4098 4096 16 (method_fpath (-1) "a.lyb").

(** The memory handler [ly_in_new_memory] makes for a string at 8192, and
    the same handler once [ly_in_memory] gave it the string at 4096:
    [func_start] is still in the string given up. *)
Definition in_str8192 : ly_in := mk_ly_in LY_IN_MEMORY 8192 8192 8192 0 method_zero.

Definition in_restrung : ly_in := mk_ly_in LY_IN_MEMORY 4096 8192 4096 0 method_zero.

(** The count of consumed bytes judged at one skip of [n] bytes: raised by
    exactly [n] when the skip succeeds, kept when it is refused. *)
Definition counts_consumed (i : ly_in) (n : Z) : Prop :=
  let k := ly_in_skip i n in
  match fst k with
  | LY_SUCCESS => ly_in_parsed (snd k) = ly_in_parsed i + n
  | _ => ly_in_parsed (snd k) = ly_in_parsed i
  end.

End LyInOps.

Module LyInPath.

Import LyIn LyInOps.

(** ** The file path of the data ([lys_parser_fill_filepath], [in.c]) *)

(** [int] is the 32-bit signed type. *)
Definition INT_MIN : Z := - 2 ^ 31.
Definition INT_MAX : Z := 2 ^ 31 - 1.

Definition is_int (z : Z) : Prop := INT_MIN <= z <= INT_MAX.

(** What [sprintf] writes for [%d]: the decimal digits of the value, most
    significant first, after a minus sign for a negative value. *)
Definition digit (d : Z) : ascii := ascii_of_nat (48 + Z.to_nat d).

Fixpoint digits (fuel : nat) (n : Z) : string :=
  match fuel with
  | O => EmptyString
  | S fuel' =>
    if n <? 10 then String (digit n) EmptyString
    else (digits fuel' (n / 10) ++ String (digit (n mod 10)) EmptyString)%string
  end.

Definition decimal (n : Z) : string := digits (S (Z.to_nat (Z.log2 n))) n.

Definition format_d (z : Z) : string :=
  if z <? 0 then String "-"%char (decimal (- z)) else decimal z.

(** [sprintf(proc_path, "/proc/self/fd/%d", fd)] *)
Definition proc_path_of (fd : Z) : string := ("/proc/self/fd/" ++ format_d fd)%string.

(** [char proc_path[32]] *)
Definition PROC_PATH_SIZE : Z := 32.

(** The number a string of decimal digits denotes. *)
Fixpoint number_from (acc : Z) (s : string) : Z :=
  match s with
  | EmptyString => acc
  | String c s' => number_from (10 * acc + (Z.of_nat (nat_of_ascii c) - 48)) s'
  end.

Definition number (s : string) : Z := number_from 0 s.

(** What the functions called for the path answer: [realpath] with the
    resolved path or [NULL]; [readlink], given the path of the link and
    the size of the buffer, with its return value and the text in the
    buffer; [lydict_insert], given the text and the length, with the
    string it leaves in [*filepath] ([None]: it leaves [NULL]). *)
Record path_system : Type := mk_path_system {
  realpath : string -> option string;
  readlink : string -> Z -> Z * string;
  lydict_insert : string -> Z -> option string;
  PATH_MAX : Z
}.

(** [lys_parser_fill_filepath] as compiled where [__APPLE__] is not
    defined.  [ctx] is an address, [filepath] a pointer to the cell of the
    path.  The result is the cell afterwards ([None] for a [NULL]
    [filepath]), inside [Some] unless a member of the union is read that
    was not stored. *)
Definition lys_parser_fill_filepath (ps : path_system) (ctx : Z) (i : option ly_in)
    (filepath : option (option string)) : option (option string) :=
  if ctx =? NULL then Some (match filepath with Some c => c | None => None end)
  else match i, filepath with
  | None, Some c => Some c
  | _, None => Some None
  | Some h, Some (Some set) => Some (Some set)
  | Some h, Some None =>
    match type h with
    | LY_IN_FILEPATH =>
      match method_filepath_of (method h) with
      | Some p =>
        match realpath ps p with
        | Some resolved => Some (lydict_insert ps resolved 0)
        | None => Some (lydict_insert ps p 0)
        end
      | None => None
      end
    | LY_IN_FD =>
      match method_fd_of (method h) with
      | Some fd =>
        let (len, path) := readlink ps (proc_path_of fd) (PATH_MAX ps - 1) in
        if 0 <? len then Some (lydict_insert ps path len) else Some None
      | None => None
      end
    | LY_IN_MEMORY | LY_IN_FILE => Some None
    | LY_IN_ERROR => Some None
    end
  end.

End LyInPath.

(** * Properties *)

Module LyInFacts.

Import LyIn.

(** ** Arithmetic of the end-of-input test *)

Lemma to_size_t_small (z : Z) : in_size_t z -> to_size_t z = z.
Proof. unfold in_size_t, to_size_t. intros H. apply Z.mod_small. exact H. Qed.

(** For a handler that knows its length and is inside its data the test
    compares [count] with the bytes left of [length]. *)
Lemma at_eof_known_length (i : ly_in) (count : Z) :
  inside i -> length i <> 0 ->
  at_eof i count = (length i - (current i - start i) <? count).
Proof.
  intros (Hl & Hin) Hlen. specialize (Hin Hlen).
  unfold at_eof, in_size_t in *.
  destruct (Z.eqb_spec (length i) 0) as [E | _]; [contradiction |].
  cbn [negb andb].
  rewrite (to_size_t_small (current i - start i)) by (unfold in_size_t; lia).
  rewrite to_size_t_small by (unfold in_size_t; lia).
  reflexivity.
Qed.

(** A handler without a length is never at the end of its input. *)
Lemma at_eof_no_length (i : ly_in) (count : Z) :
  length i = 0 -> at_eof i count = false.
Proof. intros E. unfold at_eof. rewrite E. reflexivity. Qed.

Lemma read_skip_agree (mem : Z -> byte) (i : ly_in) (count : Z) :
  (read_ret (ly_in_read mem i count), after_read (ly_in_read mem i count))
  = ly_in_skip i count.
Proof. unfold ly_in_read, ly_in_skip. destruct (at_eof i count); reflexivity. Qed.

Lemma skip_eof (i : ly_in) (count : Z) :
  at_eof i count = true -> ly_in_skip i count = (LY_EDENIED, i).
Proof. intros E. unfold ly_in_skip. rewrite E. reflexivity. Qed.

Lemma skip_ok (i : ly_in) (count : Z) :
  at_eof i count = false ->
  ly_in_skip i count = (LY_SUCCESS, set_current i (current i + count)).
Proof. intros E. unfold ly_in_skip. rewrite E. reflexivity. Qed.

Lemma read_eof (mem : Z -> byte) (i : ly_in) (count : Z) :
  at_eof i count = true -> ly_in_read mem i count = (LY_EDENIED, i, None).
Proof. intros E. unfold ly_in_read. rewrite E. reflexivity. Qed.

Lemma read_ok (mem : Z -> byte) (i : ly_in) (count : Z) :
  at_eof i count = false ->
  ly_in_read mem i count
  = (LY_SUCCESS, set_current i (current i + count), Some (mem_bytes mem (current i) count)).
Proof. intros E. unfold ly_in_read. rewrite E. reflexivity. Qed.

Lemma mem_bytes_length (mem : Z -> byte) (p count : Z) :
  0 <= count -> Z.of_nat (List.length (mem_bytes mem p count)) = count.
Proof.
  intros H. unfold mem_bytes. rewrite length_map, length_seq. lia.
Qed.

Lemma parsed_exact (i : ly_in) :
  func_start i <= current i -> current i - func_start i < 2 ^ SIZE_BITS ->
  ly_in_parsed i = current i - func_start i.
Proof.
  intros H1 H2. unfold ly_in_parsed. apply to_size_t_small. unfold in_size_t. lia.
Qed.

Lemma parsed_at_mark (i : ly_in) : func_start i = current i -> ly_in_parsed i = 0.
Proof. intros E. unfold ly_in_parsed. rewrite E, Z.sub_diag. reflexivity. Qed.

(** ** Handlers stay positioned *)

(** The handler [ly_in_new_fd] makes over a mapping is positioned. *)
Lemma new_fd_positioned (sys : system) (fd : Z) (cell : option ly_in) (h : ly_in) :
  (forall ret len addr, ly_mmap sys fd = (ret, len, addr) -> in_size_t len /\ 0 <= addr) ->
  cell_of (ly_in_new_fd sys fd (Some cell)) = Some (Some h) ->
  ret_of (ly_in_new_fd sys fd (Some cell)) = LY_SUCCESS ->
  positioned h /\ ly_in_parsed h = 0.
Proof.
  intros Hmap. unfold ly_in_new_fd.
  destruct (fd <? 0); [discriminate 2 |].
  destruct (ly_mmap sys fd) as [[ret len] addr] eqn:E.
  destruct (Hmap _ _ _ eq_refl) as [Hlen Haddr]. unfold in_size_t in Hlen.
  destruct ret; try discriminate 2.
  destruct (addr =? NULL); [discriminate 2 |].
  destruct (calloc_ok sys); [| discriminate 2].
  cbn. intros Hh _. injection Hh as <-.
  split; [| apply parsed_at_mark; reflexivity].
  unfold positioned, inside. cbn [length current start func_start].
  split; [split; [exact Hlen | intros _; lia] | lia].
Qed.

(** A read or skip, refused or not, leaves a positioned handler
    positioned. *)
Lemma skip_keeps_positioned (i : ly_in) (n : Z) :
  positioned i -> in_size_t n -> positioned (snd (ly_in_skip i n)).
Proof.
  intros Hpos Hn. pose proof Hpos as (Hi & Hs & Hf & Hc). pose proof Hi as (Hl & Hin).
  destruct (at_eof i n) eqn:E.
  - rewrite (skip_eof _ _ E). exact Hpos.
  - rewrite (skip_ok _ _ E). unfold in_size_t in Hn.
    unfold positioned, inside. cbn [snd length current start func_start set_current].
    split; [split; [exact Hl |] | lia].
    intros Hlen. specialize (Hin Hlen).
    rewrite at_eof_known_length in E by assumption. apply Z.ltb_ge in E. lia.
Qed.

Lemma reset_keeps_positioned (i h : ly_in) :
  positioned i -> snd (ly_in_reset (Some i)) = Some h -> positioned h.
Proof.
  intros ((Hl & Hin) & Hs & Hf & Hc) Hh. cbn in Hh. injection Hh as <-.
  unfold positioned, inside. cbn [length current start func_start].
  split; [split; [exact Hl |] | lia].
  intros Hlen. specialize (Hin Hlen). lia.
Qed.

(** ** C1: reading and skipping against the end of the input *)

(** C1, as stated, fails for a memory handler: [in_ab] is the handler that
    [ly_in_new_memory] makes for the three bytes of the C string "ab",
    and reading or skipping 10 bytes, more than the source holds, is not
    refused. *)
Lemma read_past_memory_source :
  cell_of (ly_in_new_memory sys_mapped (src_base src_ab) (Some None)) = Some (Some in_ab)
  /\ remaining src_ab in_ab = 3
  /\ ly_in_skip in_ab 10 = (LY_SUCCESS, set_current in_ab 4106)
  /\ ~ bounded_by_source src_ab in_ab 10.
Proof.
  split; [reflexivity |]. split; [reflexivity |]. split; [reflexivity |].
  unfold bounded_by_source. cbn. intros (H & _). discriminate H.
Qed.

(** C1, amended: for a handler whose [length] is not 0 (the handlers over
    a mapped file) and whose [current] is inside its data, reading or
    skipping [n] bytes when fewer than [n] of the [length] bytes remain
    returns [LY_EDENIED] and leaves the handler as it was; otherwise both
    calls return [LY_SUCCESS] and, the advanced position being an address
    ([0 <= current] and [current + n < 2^64]), move [current] by exactly
    [n] and change nothing else, and the read hands out [n] bytes.  A
    handler whose [length] is 0 (a memory handler) is never refused: both
    calls return [LY_SUCCESS], and move [current] by [n] under the same
    condition on the advanced position. *)
Theorem read_skip_bounds (mem : Z -> byte) (i : ly_in) (n : Z) :
  inside i -> in_size_t n ->
  let left := length i - (current i - start i) in
  (length i <> 0 -> left < n ->
     ly_in_read mem i n = (LY_EDENIED, i, None)
     /\ ly_in_skip i n = (LY_EDENIED, i))
  /\ (length i = 0 \/ n <= left ->
     read_ret (ly_in_read mem i n) = LY_SUCCESS
     /\ fst (ly_in_skip i n) = LY_SUCCESS
     /\ (0 <= current i -> current i + n < 2 ^ SIZE_BITS ->
         ly_in_read mem i n
           = (LY_SUCCESS, set_current i (current i + n), Some (mem_bytes mem (current i) n))
         /\ ly_in_skip i n = (LY_SUCCESS, set_current i (current i + n))
         /\ current (set_current i (current i + n)) = current i + n
         /\ in_size_t (current (snd (ly_in_skip i n)))
         /\ Z.of_nat (List.length (mem_bytes mem (current i) n)) = n)).
Proof.
  intros Hpos Hn left. split.
  - intros Hlen Hlt.
    assert (E : at_eof i n = true).
    { rewrite at_eof_known_length by assumption. apply Z.ltb_lt. exact Hlt. }
    split; [apply read_eof | apply skip_eof]; exact E.
  - intros Hcase.
    assert (E : at_eof i n = false).
    { destruct (Z.eq_dec (length i) 0) as [E0 | Hlen].
      - apply at_eof_no_length. exact E0.
      - rewrite at_eof_known_length by assumption.
        apply Z.ltb_ge. destruct Hcase as [E0 | Hle]; [contradiction | exact Hle]. }
    split; [rewrite (read_ok mem i n E); reflexivity |].
    split; [rewrite (skip_ok i n E); reflexivity |].
    intros H0 Hup.
    split; [apply read_ok; exact E |].
    split; [apply skip_ok; exact E |].
    split; [reflexivity |].
    split.
    + rewrite (skip_ok i n E). unfold in_size_t in *.
      change (current (snd (LY_SUCCESS, set_current i (current i + n))))
        with (current i + n).
      lia.
    + apply mem_bytes_length. unfold in_size_t in Hn. lia.
Qed.

Lemma in_fd16_inside : inside in_fd16.
Proof. unfold inside, in_size_t; cbn. lia. Qed.

Lemma in_fd16_positioned : positioned in_fd16.
Proof. split; [exact in_fd16_inside | cbn; lia]. Qed.

Lemma read_skip_bounds_witness :
  (ly_in_skip in_fd16 5 = (LY_EDENIED, in_fd16))
  /\ (ly_in_skip in_fd16 4 = (LY_SUCCESS, set_current in_fd16 4112))
  /\ (ly_in_skip in_ab 10 = (LY_SUCCESS, set_current in_ab 4106)).
Proof.
  pose proof (read_skip_bounds (fun _ => x00) in_fd16 5 in_fd16_inside
                ltac:(unfold in_size_t; cbn; lia)) as [H5 _].
  pose proof (read_skip_bounds (fun _ => x00) in_fd16 4 in_fd16_inside
                ltac:(unfold in_size_t; cbn; lia)) as [_ H4].
  pose proof (read_skip_bounds (fun _ => x00) in_ab 10
                ltac:(unfold inside, in_size_t; cbn; lia)
                ltac:(unfold in_size_t; cbn; lia)) as [_ H10].
  split; [| split].
  - apply H5; cbn; [discriminate | lia].
  - apply H4; [right; cbn; lia | cbn; lia | cbn; lia].
  - apply H10; [left; reflexivity | cbn; lia | cbn; lia].
Defined.

(** ** C7: the bytes-consumed query *)

(** The count stays below [2^64] on a positioned handler that knows its
    length. *)
Lemma consumed_in_range (i : ly_in) :
  positioned i -> length i <> 0 -> current i - func_start i < 2 ^ SIZE_BITS.
Proof.
  intros ((Hl & Hin) & Hs & Hf & Hc) Hlen. specialize (Hin Hlen).
  unfold in_size_t in Hl. lia.
Qed.

(** C7, as stated, fails.  [ly_in_memory] puts [start] and [current] at
    the new string and leaves [func_start] where it was: the handler made
    for the string at 8192 and then given the string at 4096 reports
    [2^64 - 4096] bytes consumed before anything was read from the new
    string, and a skip of 5000 bytes, which succeeds, takes the count to
    904 and not 5000 further. *)
Lemma stale_mark_miscounts :
  ly_in_new_memory sys_mapped 8192 (Some None)
    = (LY_SUCCESS, Some (Some LyInOps.in_str8192), [ev_calloc])
  /\ LyInOps.ly_in_memory (Some LyInOps.in_str8192) 4096
     = (8192, Some LyInOps.in_restrung, [])
  /\ ly_in_parsed LyInOps.in_restrung = 2 ^ 64 - 4096
  /\ fst (ly_in_skip LyInOps.in_restrung 5000) = LY_SUCCESS
  /\ ly_in_parsed (snd (ly_in_skip LyInOps.in_restrung 5000)) = 904
  /\ ~ LyInOps.counts_consumed LyInOps.in_restrung 5000.
Proof.
  split; [reflexivity |]. split; [reflexivity |]. split; [reflexivity |].
  split; [reflexivity |]. split; [reflexivity |].
  unfold LyInOps.counts_consumed. cbn. discriminate.
Qed.

(** C7, amended: on a handler whose pointers are in order,
    [start <= func_start <= current] (as creation, [ly_in_reset], reads
    and skips leave them; [ly_in_memory] and [ly_in_fd] put [current] at
    new data without moving [func_start], until the handler is reset),
    [ly_in_parsed] is the number of bytes consumed since the
    function-start mark.  It is 0 whenever the mark is at the current
    position, as [ly_in_reset] leaves it; a read or skip of [n] bytes that
    succeeds raises it by exactly [n], one that is refused leaves it as it
    was.  A handler without a length stays inside the address space. *)
Theorem parsed_counts_consumed (mem : Z -> byte) (i : ly_in) (n : Z) :
  positioned i -> in_size_t n ->
  (length i = 0 -> current i + n < 2 ^ SIZE_BITS) ->
  ly_in_parsed i = current i - func_start i
  /\ (func_start i = current i -> ly_in_parsed i = 0)
  /\ (forall h, snd (ly_in_reset (Some i)) = Some h -> ly_in_parsed h = 0)
  /\ ly_in_parsed (after_read (ly_in_read mem i n))
     = match read_ret (ly_in_read mem i n) with
       | LY_SUCCESS => ly_in_parsed i + n
       | _ => ly_in_parsed i
       end
  /\ ly_in_parsed (snd (ly_in_skip i n))
     = match fst (ly_in_skip i n) with
       | LY_SUCCESS => ly_in_parsed i + n
       | _ => ly_in_parsed i
       end.
Proof.
  intros Hpos Hn Hmem.
  assert (Hnow : ly_in_parsed i = current i - func_start i).
  { pose proof Hpos as ((Hl & Hin) & Hs & Hf & Hc).
    apply parsed_exact; [exact Hc |].
    destruct (Z.eq_dec (length i) 0) as [E0 | Hlen].
    - specialize (Hmem E0). unfold in_size_t in Hn. lia.
    - apply consumed_in_range; [exact Hpos | exact Hlen]. }
  assert (Hskip : ly_in_parsed (snd (ly_in_skip i n))
     = match fst (ly_in_skip i n) with
       | LY_SUCCESS => ly_in_parsed i + n
       | _ => ly_in_parsed i
       end).
  { destruct (at_eof i n) eqn:E.
    - rewrite (skip_eof _ _ E). reflexivity.
    - rewrite (skip_ok _ _ E). cbn [fst snd]. rewrite Hnow.
      destruct Hpos as (Hi & Hs & Hf & Hc). pose proof Hi as (Hl & Hin).
      unfold ly_in_parsed. cbn [current func_start set_current].
      unfold in_size_t in Hn, Hl.
      rewrite to_size_t_small; [lia |]. unfold in_size_t.
      destruct (Z.eq_dec (length i) 0) as [E0 | Hlen].
      + specialize (Hmem E0). lia.
      + rewrite at_eof_known_length in E by assumption.
        apply Z.ltb_ge in E. specialize (Hin Hlen). lia. }
  split; [exact Hnow |]. split; [apply parsed_at_mark |]. split.
  - intros h Hh. cbn in Hh. injection Hh as <-. apply parsed_at_mark. reflexivity.
  - split; [| exact Hskip].
    pose proof (read_skip_agree mem i n) as Hag.
    destruct (ly_in_skip i n) as [e i'] eqn:Ek.
    injection Hag as -> ->. exact Hskip.
Qed.

Lemma parsed_counts_consumed_witness :
  ly_in_parsed in_fd16 = 4
  /\ ly_in_parsed (snd (ly_in_skip in_fd16 4)) = 8
  /\ ly_in_parsed (snd (ly_in_skip in_fd16 5)) = 4.
Proof.
  pose proof (parsed_counts_consumed (fun _ => x00) in_fd16 4 in_fd16_positioned
                ltac:(unfold in_size_t; cbn; lia) ltac:(cbn; discriminate))
    as (H0 & _ & _ & _ & H4).
  pose proof (parsed_counts_consumed (fun _ => x00) in_fd16 5 in_fd16_positioned
                ltac:(unfold in_size_t; cbn; lia) ltac:(cbn; discriminate))
    as (_ & _ & _ & _ & H5).
  split; [exact H0 |]. split; [exact H4 | exact H5].
Defined.

(** ** C9: resetting a handler *)

(** C9: [ly_in_reset] on a handler succeeds, puts [current] and
    [func_start] at [start], keeps [type], [start], [length] and [method],
    makes [ly_in_parsed] return 0, and a second reset changes nothing
    more. *)
Theorem reset_rewinds (i : ly_in) :
  exists h,
    ly_in_reset (Some i) = (LY_SUCCESS, Some h)
    /\ current h = start i /\ func_start h = start i
    /\ type h = type i /\ start h = start i /\ length h = length i
    /\ method h = method i
    /\ ly_in_parsed h = 0
    /\ ly_in_reset (Some h) = (LY_SUCCESS, Some h).
Proof.
  eexists. split; [reflexivity |].
  cbn [current func_start type start length method].
  repeat split. apply parsed_at_mark. reflexivity.
Qed.

(** ** C8: creating a handler for an empty file *)

(** C8, as stated, fails: creating a handler for descriptor 3 of an empty
    file is refused with [LY_EINVAL] and the caller's cell is left alone,
    but the call makes no [ly_munmap]: [ly_mmap] handed out no mapping. *)
Lemma empty_file_no_unmap :
  empty_file sys_empty 3
  /\ ly_in_new_fd sys_empty 3 (Some None)
     = (LY_EINVAL, Some None, [ev_mmap 3; ev_logerr LY_EINVAL "Empty input file."])
  /\ ~ refused_and_unmapped (Some None) (ly_in_new_fd sys_empty 3 (Some None)).
Proof.
  split; [exists 0; reflexivity |]. split; [reflexivity |].
  intros (_ & _ & H). apply H. reflexivity.
Qed.

Lemma new_fd_empty (sys : system) (fd : Z) (cell : option ly_in) :
  0 <= fd -> empty_file sys fd ->
  ly_in_new_fd sys fd (Some cell)
  = (LY_EINVAL, Some cell, [ev_mmap fd; ev_logerr LY_EINVAL "Empty input file."]).
Proof.
  intros Hfd [len E]. unfold ly_in_new_fd.
  destruct (Z.ltb_spec fd 0) as [Hneg | _]; [lia |].
  rewrite E. reflexivity.
Qed.

(** C8, amended: creating a handler from a descriptor, an open file or a
    file path whose file is empty ([ly_mmap] succeeds with a [NULL]
    address) returns [LY_EINVAL] and leaves the caller's cell as it was;
    no mapping exists then, and the call returns without any
    [ly_munmap]. *)
Theorem empty_file_refused (sys : system) (cell : option ly_in)
    (fd f : Z) (path : string) (len : Z) :
  0 <= fd -> empty_file sys fd ->
  refused_nothing_mapped (Some cell) (ly_in_new_fd sys fd (Some cell))
  /\ (f <> NULL -> fileno sys f = fd ->
      refused_nothing_mapped (Some cell) (ly_in_new_file sys f (Some cell)))
  /\ (c_open sys (dup_path path len) = fd ->
      refused_nothing_mapped (Some cell)
        (ly_in_new_filepath sys (Some path) len (Some cell))).
Proof.
  intros Hfd He. pose proof (new_fd_empty sys fd cell Hfd He) as E.
  split; [| split].
  - rewrite E. repeat split.
  - intros Hf Hno. unfold ly_in_new_file.
    destruct (Z.eqb_spec f NULL) as [E0 | _]; [contradiction |].
    rewrite Hno, E. repeat split.
  - intros Hop. unfold ly_in_new_filepath. cbv zeta. rewrite Hop.
    destruct (Z.eqb_spec fd (-1)) as [E1 | _]; [lia |].
    rewrite E. repeat split.
Qed.

Lemma empty_file_refused_witness :
  refused_nothing_mapped (Some None) (ly_in_new_fd sys_empty 3 (Some None))
  /\ refused_nothing_mapped (Some None) (ly_in_new_file sys_empty 8 (Some None))
  /\ refused_nothing_mapped (Some None)
       (ly_in_new_filepath sys_empty (Some "data.lyb"%string) 0 (Some None)).
Proof.
  destruct (empty_file_refused sys_empty None 3 8 "data.lyb"%string 0
              ltac:(lia) (ex_intro _ 0 eq_refl)) as (H1 & H2 & H3).
  split; [exact H1 |]. split.
  - apply H2; [discriminate | reflexivity].
  - apply H3. reflexivity.
Defined.

End LyInFacts.

Module LydParserFacts.

Import LydParser.

(** ** Reading flag tests *)

Lemma flag_set_lor (a b c : Z) :
  flag_set a (Z.lor b c) = flag_set a b || flag_set a c.
Proof.
  unfold flag_set. rewrite Z.land_lor_distr_r.
  destruct (Z.eqb_spec (Z.land a b) 0) as [Eb | Nb];
    destruct (Z.eqb_spec (Z.land a c) 0) as [Ec | Nc]; cbn [negb orb];
    destruct (Z.eqb_spec (Z.lor (Z.land a b) (Z.land a c)) 0) as [E | N];
    try reflexivity; exfalso.
  - apply N. rewrite Eb, Ec. reflexivity.
  - apply Z.lor_eq_0_iff in E. tauto.
  - apply Z.lor_eq_0_iff in E. tauto.
  - apply Z.lor_eq_0_iff in E. tauto.
Qed.

Lemma not_true_false (b : bool) : b <> true <-> b = false.
Proof. destruct b; split; intros H; congruence. Qed.

Section Checks.

Context {F : header_flags}.

Lemma rpc_or_action_test (snode : lysc_node) :
  rpc_or_action snode <-> flag_set (nodetype snode) (Z.lor LYS_RPC LYS_ACTION) = true.
Proof. unfold rpc_or_action. rewrite flag_set_lor, orb_true_iff. reflexivity. Qed.

Lemma rpc_mode_test (lydctx : lyd_ctx) :
  rpc_mode lydctx
  <-> flag_set (int_opts lydctx) (Z.lor LYD_INTOPT_RPC LYD_INTOPT_REPLY) = true.
Proof. unfold rpc_mode. rewrite flag_set_lor, orb_true_iff. reflexivity. Qed.

Lemma notification_test (snode : lysc_node) :
  notification snode <-> (nodetype snode =? LYS_NOTIF) = true.
Proof. unfold notification. symmetry. apply Z.eqb_eq. Qed.

Lemma op_parsed_test (lydctx : lyd_ctx) :
  op_parsed lydctx <-> negb (op_node lydctx =? NULL) = true.
Proof.
  unfold op_parsed. destruct (Z.eqb_spec (op_node lydctx) NULL); cbn; split;
    intros H; congruence.
Qed.

Lemma notification_no_rpc (snode : lysc_node) :
  notif_is_no_rpc -> notification snode -> ~ rpc_or_action snode.
Proof.
  unfold notif_is_no_rpc, notification. intros Hd Hn Hr.
  apply rpc_or_action_test in Hr. rewrite Hn, Hd in Hr. discriminate.
Qed.

(** The operation tests give one of two verdicts. *)
Lemma check_operation_verdicts (lydctx : lyd_ctx) (snode : lysc_node) :
  check_operation lydctx snode = LY_EVALID \/ check_operation lydctx snode = LY_SUCCESS.
Proof.
  unfold check_operation.
  repeat match goal with |- context [if ?b then _ else _] => destruct b end; auto.
Qed.

Lemma check_operation_fails (lydctx : lyd_ctx) (snode : lysc_node) :
  notif_is_no_rpc ->
  check_operation lydctx snode = LY_EVALID <-> op_violation lydctx snode.
Proof.
  intros Hd. unfold op_violation.
  pose proof (rpc_or_action_test snode) as Hra.
  pose proof (rpc_mode_test lydctx) as Hrm.
  pose proof (notification_test snode) as Hnt.
  pose proof (op_parsed_test lydctx) as Hop.
  pose proof (notification_no_rpc snode Hd) as Hex.
  unfold notif_mode in *. unfold check_operation.
  destruct (flag_set (nodetype snode) (Z.lor LYS_RPC LYS_ACTION)) eqn:Era;
    destruct (flag_set (int_opts lydctx) (Z.lor LYD_INTOPT_RPC LYD_INTOPT_REPLY)) eqn:Erm;
    destruct (nodetype snode =? LYS_NOTIF) eqn:Ent;
    destruct (flag_set (int_opts lydctx) LYD_INTOPT_NOTIF) eqn:Enm;
    destruct (negb (op_node lydctx =? NULL)) eqn:Eop;
    split; intros H; try reflexivity; try discriminate H;
    try (exfalso; intuition congruence); intuition.
Qed.

(** ** C2: the operation-context check *)

(** C2: the operation-context check of [lyd_parser_check_schema] returns
    [LY_EVALID] exactly when the node is an RPC or action and neither RPC
    nor reply mode was asked for, or it is a notification and
    notification mode was not asked for, or it is one of them in its mode
    and an operation node has been parsed already; in every other case it
    returns [LY_SUCCESS].  The verdict is the return value of the call
    that meets the node: once the no-state test has let the node through,
    [lyd_parser_check_schema] returns it and leaves the context, with its
    sets of deferred items, as it was. *)
Theorem operation_check_verdict (lydctx : lyd_ctx) (snode : lysc_node) :
  notif_is_no_rpc ->
  (check_operation lydctx snode = LY_EVALID <-> op_violation lydctx snode)
  /\ (~ op_violation lydctx snode -> check_operation lydctx snode = LY_SUCCESS)
  /\ (state_rejected lydctx snode = false ->
      lyd_parser_check_schema snode lydctx = (check_operation lydctx snode, lydctx))
  /\ snd (lyd_parser_check_schema snode lydctx) = lydctx.
Proof.
  intros Hd. pose proof (check_operation_fails lydctx snode Hd) as Hiff.
  split; [exact Hiff |]. split; [| split].
  - intros Hno. destruct (check_operation_verdicts lydctx snode) as [E | E];
      [exfalso; apply Hno, Hiff, E | exact E].
  - intros Est. unfold lyd_parser_check_schema, bind, gets, pure. rewrite Est. reflexivity.
  - unfold lyd_parser_check_schema, bind, gets, pure.
    destruct (state_rejected lydctx snode); reflexivity.
Qed.

(** ** C10: the no-state option *)

(** C10: with the no-state option set, [lyd_parser_check_schema] returns
    [LY_EVALID] for every state node, whatever its type, the requested
    operation modes and the operation node parsed so far, so before and
    apart from the operation-context tests; without the option the
    verdict is that of the operation-context tests alone, and a state
    node that is no operation node passes. *)
Theorem no_state_rejects_state_nodes (lydctx : lyd_ctx) (snode : lysc_node) :
  (no_state lydctx -> state_node snode ->
     lyd_parser_check_schema snode lydctx = (LY_EVALID, lydctx))
  /\ (~ no_state lydctx ->
     lyd_parser_check_schema snode lydctx = (check_operation lydctx snode, lydctx))
  /\ (~ no_state lydctx -> state_node snode ->
     ~ rpc_or_action snode -> ~ notification snode ->
     lyd_parser_check_schema snode lydctx = (LY_SUCCESS, lydctx)).
Proof.
  unfold no_state, state_node.
  assert (Hpass : flag_set (parse_options lydctx) LYD_PARSE_NO_STATE <> true ->
     lyd_parser_check_schema snode lydctx = (check_operation lydctx snode, lydctx)).
  { intros Hno. apply not_true_false in Hno.
    unfold lyd_parser_check_schema, bind, gets, pure, state_rejected.
    rewrite Hno. reflexivity. }
  split; [| split].
  - intros Hopt Hst.
    unfold lyd_parser_check_schema, bind, gets, pure, state_rejected.
    rewrite Hopt, Hst. reflexivity.
  - exact Hpass.
  - intros Hno _ Hra Hnt. rewrite (Hpass Hno). f_equal.
    rewrite rpc_or_action_test in Hra. rewrite notification_test in Hnt.
    apply not_true_false in Hra. apply not_true_false in Hnt.
    unfold check_operation. rewrite Hra, Hnt. reflexivity.
Qed.

End Checks.

Lemma operation_check_verdict_witness :
  let c := ctx_of_options 0 1 77 in
  let rpc := mk_lysc_node 256 0 "reset" in
  @notif_is_no_rpc sample_flags
  /\ @op_violation sample_flags c rpc
  /\ @check_operation sample_flags c rpc = LY_EVALID.
Proof.
  intros c rpc.
  assert (Hd : @notif_is_no_rpc sample_flags) by reflexivity.
  destruct (@operation_check_verdict sample_flags c rpc Hd) as (Hiff & _).
  assert (Hv : @op_violation sample_flags c rpc).
  { right. right. split.
    - left. split; left; reflexivity.
    - unfold op_parsed, NULL. cbn. discriminate. }
  split; [exact Hd |]. split; [exact Hv |]. apply Hiff. exact Hv.
Defined.

Lemma no_state_rejects_state_nodes_witness :
  let c := ctx_of_options 524288 0 0 in
  let counter := mk_lysc_node 4 2 "in-octets" in
  @lyd_parser_check_schema sample_flags counter c = (LY_EVALID, c)
  /\ @lyd_parser_check_schema sample_flags counter (ctx_of_options 0 0 0)
     = (LY_SUCCESS, ctx_of_options 0 0 0).
Proof.
  intros c counter.
  destruct (@no_state_rejects_state_nodes sample_flags c counter) as (Hrej & _).
  destruct (@no_state_rejects_state_nodes sample_flags (ctx_of_options 0 0 0) counter)
    as (_ & _ & Hpass).
  split.
  - apply Hrej; reflexivity.
  - apply Hpass.
    + cbv. discriminate.
    + reflexivity.
    + cbv. intros [H | H]; discriminate H.
    + cbv. discriminate.
Defined.

(** ** C3: values left for the resolution pass *)

(** C3, as stated, fails under the parse-only option: the term node 77 and
    the metadata 78 are both reported incomplete, both calls succeed, and
    neither is put in its set. *)
Lemma parse_only_defers_nothing :
  let c := ctx_of_options 65536 0 0 in
  let leaf := mk_lysc_node 4 0 "target" in
  let t := @lyd_parser_create_term sample_flags create_term_incomplete true
             leaf leaf_ref_args c in
  let m := @lyd_parser_create_meta sample_flags create_meta_incomplete true
             0 (Some NULL) 0 "ref" 3 leaf_ref_args c in
  t = (LY_SUCCESS, 77, c)
  /\ m = (Some (LY_SUCCESS, Some 78), c)
  /\ ~ queued_if_incomplete true 77 (node_types c) (node_types (snd t))
  /\ ~ queued_if_incomplete true 78 (meta_types c) (meta_types (snd m)).
Proof.
  cbv zeta. split; [reflexivity |]. split; [reflexivity |].
  split; cbn; intros H; exact H.
Qed.

Section Deferred.

Context {F : header_flags}.
Variable lyd_create_term : lysc_node -> value_args -> LY_ERR * bool * Z.
Variable lyd_create_meta : Z -> option Z -> Z -> string -> Z -> value_args -> LY_ERR * bool * Z.

Lemma create_term_steps (grow_ok : bool) (lydctx : lyd_ctx) (schema : lysc_node)
    (a : value_args) (incomplete : bool) (node : Z) :
  lyd_create_term schema a = (LY_SUCCESS, incomplete, node) ->
  lyd_parser_create_term lyd_create_term grow_ok schema a lydctx
  = if incomplete && deferring lydctx then
      if grow_ok then
        (LY_SUCCESS, node, set_node_types lydctx (node_types lydctx ++ [node]))
      else (LY_EMEM, node, lydctx)
    else (LY_SUCCESS, node, lydctx).
Proof.
  intros E. unfold lyd_parser_create_term, deferring. rewrite E.
  unfold bind, gets, modify, pure, ly_set_add.
  destruct incomplete, (flag_set (parse_options lydctx) LYD_PARSE_ONLY), grow_ok;
    reflexivity.
Qed.

Lemma create_meta_steps (grow_ok : bool) (lydctx : lyd_ctx) (parent m mod_ : Z)
    (name_ : string) (name_len : Z) (a : value_args) (incomplete : bool) (created : Z) :
  lyd_create_meta parent (Some m) mod_ name_ name_len a = (LY_SUCCESS, incomplete, created) ->
  lyd_parser_create_meta lyd_create_meta grow_ok parent (Some m) mod_ name_ name_len a lydctx
  = if incomplete && deferring lydctx then
      if grow_ok then
        (Some (LY_SUCCESS, Some (if m =? NULL then created else m)),
         set_meta_types lydctx (meta_types lydctx ++ [created]))
      else (Some (LY_EMEM, Some created), lydctx)
    else (Some (LY_SUCCESS, Some (if m =? NULL then created else m)), lydctx).
Proof.
  intros E. unfold lyd_parser_create_meta, deferring. rewrite E.
  unfold bind, gets, modify, pure, ly_set_add. cbn [option_map].
  destruct incomplete, (flag_set (parse_options lydctx) LYD_PARSE_ONLY), grow_ok,
    (m =? NULL); reflexivity.
Qed.

(** C3, amended: when value creation succeeds and reports the value of a
    term node incomplete, [lyd_parser_create_term] appends the node to the
    deferred node-type set unless the caller set the parse-only option;
    [lyd_parser_create_meta] does the same with the metadata handed back
    through a [meta] pointer that is not [NULL] and the deferred
    metadata-type set.  When the insertion into the set fails, the call
    returns the error of the insertion, [LY_EMEM], and the context stays
    as it was.  A complete value, and any value under the parse-only
    option, is not added, whatever [meta] is: the call succeeds and the
    context stays as it was. *)
Theorem incomplete_values_deferred (grow_ok : bool) (lydctx : lyd_ctx) (incomplete : bool) :
  (forall schema a node,
     lyd_create_term schema a = (LY_SUCCESS, incomplete, node) ->
     exists ret lydctx',
       lyd_parser_create_term lyd_create_term grow_ok schema a lydctx
       = (ret, node, lydctx')
       /\ (incomplete = true -> deferring lydctx = true -> grow_ok = true ->
           ret = LY_SUCCESS
           /\ node_types lydctx' = node_types lydctx ++ [node]
           /\ meta_types lydctx' = meta_types lydctx)
       /\ (incomplete = true -> deferring lydctx = true -> grow_ok = false ->
           ret = LY_EMEM /\ lydctx' = lydctx)
       /\ (incomplete = false \/ deferring lydctx = false ->
           ret = LY_SUCCESS /\ lydctx' = lydctx))
  /\ (forall parent m mod_ name_ name_len a created,
     lyd_create_meta parent (Some m) mod_ name_ name_len a
     = (LY_SUCCESS, incomplete, created) ->
     exists ret cell lydctx',
       lyd_parser_create_meta lyd_create_meta grow_ok parent (Some m) mod_ name_ name_len a lydctx
       = (Some (ret, Some cell), lydctx')
       /\ (incomplete = true -> deferring lydctx = true -> grow_ok = true ->
           ret = LY_SUCCESS /\ cell = (if m =? NULL then created else m)
           /\ meta_types lydctx' = meta_types lydctx ++ [created]
           /\ node_types lydctx' = node_types lydctx)
       /\ (incomplete = true -> deferring lydctx = true -> grow_ok = false ->
           ret = LY_EMEM /\ cell = created /\ lydctx' = lydctx)
       /\ (incomplete = false \/ deferring lydctx = false ->
           ret = LY_SUCCESS /\ cell = (if m =? NULL then created else m)
           /\ lydctx' = lydctx))
  /\ (forall parent mod_ name_ name_len a created,
     lyd_create_meta parent None mod_ name_ name_len a
     = (LY_SUCCESS, incomplete, created) ->
     incomplete = false \/ deferring lydctx = false ->
     lyd_parser_create_meta lyd_create_meta grow_ok parent None mod_ name_ name_len a lydctx
     = (Some (LY_SUCCESS, None), lydctx)).
Proof.
  split; [| split].
  - intros schema a node E. rewrite (create_term_steps grow_ok _ _ _ _ _ E).
    destruct incomplete, (deferring lydctx), grow_ok; cbn [andb];
      do 2 eexists; (split; [reflexivity |]);
      (split; [| split]); intros; try intuition congruence;
      repeat split; reflexivity.
  - intros parent m mod_ name_ name_len a created E.
    rewrite (create_meta_steps grow_ok _ _ _ _ _ _ _ _ _ E).
    destruct incomplete, (deferring lydctx), grow_ok; cbn [andb];
      do 3 eexists; (split; [reflexivity |]);
      (split; [| split]); intros; try intuition congruence;
      repeat split; reflexivity.
  - intros parent mod_ name_ name_len a created E Hno.
    unfold lyd_parser_create_meta. rewrite E.
    unfold bind, gets, pure. cbn [option_map].
    assert (Hd : incomplete && negb (flag_set (parse_options lydctx) LYD_PARSE_ONLY)
                 = false).
    { destruct Hno as [-> | Hd]; [reflexivity |].
      unfold deferring in Hd. rewrite Hd. apply andb_false_r. }
    rewrite Hd. reflexivity.
Qed.

End Deferred.

Lemma incomplete_values_deferred_witness :
  let c := ctx_of_options 0 0 0 in
  let leaf := mk_lysc_node 4 0 "target" in
  node_types (snd (@lyd_parser_create_term sample_flags create_term_incomplete true
                     leaf leaf_ref_args c)) = [77]
  /\ meta_types (snd (@lyd_parser_create_meta sample_flags create_meta_incomplete true
                     0 (Some NULL) 0 "ref" 3 leaf_ref_args c)) = [78]
  /\ @lyd_parser_create_term sample_flags create_term_incomplete false
       leaf leaf_ref_args c = (LY_EMEM, 77, c).
Proof.
  intros c leaf.
  destruct (@incomplete_values_deferred sample_flags create_term_incomplete
              create_meta_incomplete true c true) as (Ht & Hm & _).
  destruct (@incomplete_values_deferred sample_flags create_term_incomplete
              create_meta_incomplete false c true) as (Hf & _ & _).
  destruct (Ht leaf leaf_ref_args 77 eq_refl) as (r1 & c1 & E1 & H1 & _).
  destruct (Hm 0 NULL 0 "ref"%string 3 leaf_ref_args 78 eq_refl)
    as (r2 & cell & c2 & E2 & H2 & _).
  destruct (Hf leaf leaf_ref_args 77 eq_refl) as (r3 & c3 & E3 & _ & H3 & _).
  split; [| split].
  - rewrite E1. cbn [snd]. apply (H1 eq_refl eq_refl eq_refl).
  - rewrite E2. cbn [snd]. apply (H2 eq_refl eq_refl eq_refl).
  - rewrite E3. destruct (H3 eq_refl eq_refl eq_refl) as (-> & ->). reflexivity.
Defined.

End LydParserFacts.

Module LybFacts.

Import Lyb.

(** ** Bits of a hash byte *)

Lemma mask_bits (k j : Z) :
  0 <= k -> 0 <= j -> Z.testbit (Z.shiftr LYB_HASH_MASK k) j = (j + k <? 7).
Proof.
  intros Hk Hj. rewrite Z.shiftr_spec by exact Hj.
  change LYB_HASH_MASK with (Z.ones 7).
  apply Z.testbit_ones_nonneg; lia.
Qed.

Lemma marker_bits (k j : Z) :
  0 <= k -> 0 <= j -> Z.testbit (Z.shiftr LYB_HASH_COLLISION_ID k) j = (j + k =? 7).
Proof.
  intros Hk Hj. rewrite Z.shiftr_spec by exact Hj.
  change LYB_HASH_COLLISION_ID with (2 ^ 7).
  rewrite Z.pow2_bits_eqb by lia. apply Z.eqb_sym.
Qed.

Lemma lyb_hash_bits (h k j : Z) :
  0 <= k -> 0 <= j ->
  Z.testbit (lyb_hash h k) j
  = (j <? 8) && ((Z.testbit h j && (j + k <? 7)) || (j + k =? 7)).
Proof.
  intros Hk Hj. unfold lyb_hash, LYB_HASH, to_uint8.
  change 256 with (2 ^ 8).
  destruct (Z.ltb_spec j 8) as [Hlt | Hge].
  - rewrite Z.mod_pow2_bits_low by lia.
    rewrite Z.lor_spec, Z.land_spec, mask_bits, marker_bits by assumption.
    reflexivity.
  - rewrite Z.mod_pow2_bits_high by lia. reflexivity.
Qed.

Lemma lyb_hash_range (h k : Z) : 0 <= lyb_hash h k < 2 ^ LYB_HASH_BITS.
Proof.
  unfold lyb_hash, LYB_HASH, to_uint8. change (2 ^ LYB_HASH_BITS) with 256.
  apply Z.mod_pos_bound. lia.
Qed.

Lemma collision_id_cases (k : Z) :
  0 <= k < LYB_HASH_BITS ->
  k = 0 \/ k = 1 \/ k = 2 \/ k = 3 \/ k = 4 \/ k = 5 \/ k = 6 \/ k = 7.
Proof. unfold LYB_HASH_BITS. lia. Qed.

Lemma collision_id_read_back (h k : Z) :
  0 <= k < LYB_HASH_BITS -> collision_id_of (lyb_hash h k) = k.
Proof.
  intros Hk. unfold collision_id_of.
  change (Z.to_nat LYB_HASH_BITS) with 8%nat. cbn [leading_zeros Z.of_nat].
  destruct (collision_id_cases k Hk) as [-> | [-> | [-> | [-> | [-> | [-> | [-> | ->]]]]]]];
    repeat (rewrite lyb_hash_bits by lia; cbn [Z.add Z.ltb Z.eqb Z.compare Pos.compare
              Pos.compare_cont Pos.add Pos.succ andb orb Pos.eqb];
            rewrite ?andb_false_r; cbn [orb andb]);
    reflexivity.
Qed.

Lemma marker_moves_right (k : Z) :
  0 <= k < LYB_HASH_BITS ->
  Z.shiftr LYB_HASH_COLLISION_ID (k + 1) = Z.shiftr LYB_HASH_COLLISION_ID k / 2
  /\ Z.shiftr LYB_HASH_MASK (k + 1) = Z.shiftr LYB_HASH_MASK k / 2
  /\ Z.shiftr LYB_HASH_MASK k = Z.shiftr LYB_HASH_COLLISION_ID k - 1.
Proof.
  intros Hk.
  destruct (collision_id_cases k Hk) as [-> | [-> | [-> | [-> | [-> | [-> | [-> | ->]]]]]]];
    repeat split; reflexivity.
Qed.

Lemma marker_exists (c : Z) :
  0 <= c -> Z.shiftr LYB_HASH_COLLISION_ID c <> 0 <-> c < LYB_HASH_BITS.
Proof.
  intros Hc. rewrite Z.shiftr_div_pow2 by exact Hc.
  change LYB_HASH_COLLISION_ID with (2 ^ 7). unfold LYB_HASH_BITS. split.
  - intros Hnz. destruct (Z.lt_ge_cases c 8) as [Hlt | Hge]; [exact Hlt |].
    exfalso. apply Hnz. apply Z.div_small. split; [lia |].
    apply Z.pow_lt_mono_r; lia.
  - intros Hlt Hz.
    assert (Hpos : 0 < 2 ^ c) by (apply Z.pow_pos_nonneg; lia).
    assert (Hle : 2 ^ c <= 2 ^ 7) by (apply Z.pow_le_mono_r; lia).
    pose proof (Z.div_le_mono (2 ^ c) (2 ^ 7) (2 ^ c) Hpos Hle) as Hd.
    rewrite Z.div_same in Hd by lia. lia.
Qed.

(** ** C4: the layout of a hash byte *)

(** C4: a node hash is an 8-bit value that carries its collision id as a
    unary prefix.  For collision id [k] the bits above bit [7 - k] are 0,
    bit [7 - k] is 1 and the [7 - k] bits below it are those of the
    structural hash, so that the number of leading zero bits gives [k]
    back; collision id 0 sets the top bit and leaves a 7-bit field.  One
    more collision moves the marker one place right and shortens the
    field by one bit, and the marker exists only for collision ids below
    the 8 bits of the hash. *)
Theorem hash_byte_layout (h k : Z) :
  0 <= k < LYB_HASH_BITS ->
  let b := lyb_hash h k in
  0 <= b < 2 ^ LYB_HASH_BITS
  /\ (forall j, LYB_HASH_BITS - 1 - k < j -> Z.testbit b j = false)
  /\ Z.testbit b (LYB_HASH_BITS - 1 - k) = true
  /\ (forall j, 0 <= j < LYB_HASH_BITS - 1 - k -> Z.testbit b j = Z.testbit h j)
  /\ collision_id_of b = k
  /\ (Z.testbit (lyb_hash h 0) 7 = true
      /\ forall j, 0 <= j < 7 -> Z.testbit (lyb_hash h 0) j = Z.testbit h j)
  /\ (Z.shiftr LYB_HASH_COLLISION_ID (k + 1) = Z.shiftr LYB_HASH_COLLISION_ID k / 2
      /\ Z.shiftr LYB_HASH_MASK (k + 1) = Z.shiftr LYB_HASH_MASK k / 2
      /\ Z.shiftr LYB_HASH_MASK k = Z.shiftr LYB_HASH_COLLISION_ID k - 1)
  /\ (forall c, 0 <= c -> Z.shiftr LYB_HASH_COLLISION_ID c <> 0 <-> c < LYB_HASH_BITS).
Proof.
  intros Hk b. pose proof Hk as Hk'. unfold LYB_HASH_BITS in Hk' |- *.
  assert (Hlow : forall k' j, 0 <= k' < 8 -> 0 <= j < 8 - 1 - k' ->
            Z.testbit (lyb_hash h k') j = Z.testbit h j).
  { intros k' j Hk0 Hj. rewrite lyb_hash_bits by lia.
    destruct (Z.ltb_spec j 8); [| lia].
    destruct (Z.ltb_spec (j + k') 7); [| lia].
    destruct (Z.eqb_spec (j + k') 7); [lia |].
    cbn [andb]. rewrite andb_true_r, orb_false_r. reflexivity. }
  assert (Hmark : forall k', 0 <= k' < 8 -> Z.testbit (lyb_hash h k') (8 - 1 - k') = true).
  { intros k' Hk0. rewrite lyb_hash_bits by lia.
    destruct (Z.ltb_spec (8 - 1 - k') 8); [| lia].
    destruct (Z.eqb_spec (8 - 1 - k' + k') 7); [| lia].
    rewrite orb_true_r. reflexivity. }
  split; [apply lyb_hash_range |]. split.
  { intros j Hj. subst b. rewrite lyb_hash_bits by lia.
    destruct (Z.ltb_spec j 8); [| reflexivity].
    destruct (Z.ltb_spec (j + k) 7); [lia |].
    destruct (Z.eqb_spec (j + k) 7); [lia |].
    rewrite andb_false_r. reflexivity. }
  split; [apply Hmark; exact Hk' |].
  split; [intros j Hj; apply Hlow; [exact Hk' | exact Hj] |].
  split; [apply collision_id_read_back; exact Hk |].
  split.
  { split; [apply (Hmark 0); lia | intros j Hj; apply Hlow; lia]. }
  split; [apply marker_moves_right; exact Hk | apply marker_exists].
Qed.

Lemma hash_byte_layout_witness :
  lyb_hash 0xABCD 1 = 0x4D
  /\ collision_id_of (lyb_hash 0xABCD 1) = 1
  /\ Z.testbit (lyb_hash 0xABCD 1) 6 = true.
Proof.
  destruct (hash_byte_layout 0xABCD 1 ltac:(unfold LYB_HASH_BITS; lia))
    as (_ & _ & Hm & _ & Hid & _).
  split; [reflexivity |]. split; [exact Hid | exact Hm].
Defined.

(** ** The chunk header *)

(** What [lyb.h] fixes about the metadata of a chunk: one byte for the
    size and one for the inner-chunk count, two bytes together, and 255,
    the largest value of one byte, as the maximum of either. *)
Lemma chunk_header_sizes :
  LYB_SIZE_BYTES = 1 /\ LYB_INCHUNK_BYTES = 1 /\ LYB_META_BYTES = 2
  /\ LYB_SIZE_MAX = 2 ^ (8 * LYB_SIZE_BYTES) - 1
  /\ LYB_INCHUNK_MAX = 2 ^ (8 * LYB_INCHUNK_BYTES) - 1
  /\ forall st : lyd_lyb_subtree,
       0 <= to_uint8 (inner_chunks st) <= LYB_INCHUNK_MAX.
Proof.
  repeat split; try reflexivity; unfold to_uint8, LYB_INCHUNK_MAX, UINT8_MAX;
    pose proof (Z.mod_pos_bound (inner_chunks st) 256); lia.
Qed.

End LybFacts.

Module LyInReadFacts.

Import LyIn LyInFacts.

(** ** Reads one after the other *)

Lemma seq_from (start len : nat) :
  seq start len = map (fun k => (start + k)%nat) (seq 0 len).
Proof.
  revert start. induction len as [| len IH]; intros start; [reflexivity |].
  cbn [seq map]. rewrite Nat.add_0_r. f_equal.
  rewrite (IH (S start)), (IH 1%nat), map_map.
  apply map_ext. intros k. lia.
Qed.

Lemma mem_bytes_app (mem : Z -> byte) (p a b : Z) :
  0 <= a -> 0 <= b ->
  mem_bytes mem p (a + b) = mem_bytes mem p a ++ mem_bytes mem (p + a) b.
Proof.
  intros Ha Hb. unfold mem_bytes.
  rewrite Z2Nat.inj_add, seq_app, map_app by assumption. f_equal.
  cbn [Nat.add]. rewrite seq_from, map_map. apply map_ext.
  intros k. f_equal. lia.
Qed.

Lemma at_eof_sum (i : ly_in) (a b : Z) :
  inside i -> 0 <= a -> 0 <= b ->
  at_eof i (a + b) = false
  <-> at_eof i a = false /\ at_eof (set_current i (current i + a)) b = false.
Proof.
  intros Hin Ha Hb. destruct (Z.eq_dec (length i) 0) as [E0 | Hlen].
  - rewrite !at_eof_no_length by (cbn; exact E0). tauto.
  - rewrite (at_eof_known_length i (a + b)) by assumption.
    rewrite (at_eof_known_length i a) by assumption.
    rewrite !Z.ltb_ge. split.
    + intros Hsum. split; [lia |].
      rewrite at_eof_known_length.
      * cbn [length current start set_current]. apply Z.ltb_ge. lia.
      * destruct Hin as (Hl & Hpos). specialize (Hpos Hlen).
        split; [exact Hl |]. cbn [length current start set_current]. lia.
      * exact Hlen.
    + intros (Hfirst & Hsecond).
      rewrite at_eof_known_length in Hsecond.
      * cbn [length current start set_current] in Hsecond.
        apply Z.ltb_ge in Hsecond. lia.
      * destruct Hin as (Hl & Hpos). specialize (Hpos Hlen).
        split; [exact Hl |]. cbn [length current start set_current]. lia.
      * exact Hlen.
Qed.

Lemma set_current_twice (i : ly_in) (p q : Z) :
  set_current (set_current i p) q = set_current i q.
Proof. reflexivity. Qed.

(** X1: reading [a] bytes and then [b] bytes is reading [a + b] bytes.
    The two reads both succeed exactly when the one read does, and then
    they leave the same handler and hand out the same bytes in the same
    order. *)
Theorem reads_compose (mem : Z -> byte) (i : ly_in) (a b : Z) :
  inside i -> 0 <= a -> 0 <= b ->
  let r1 := ly_in_read mem i a in
  let r2 := ly_in_read mem (after_read r1) b in
  let r := ly_in_read mem i (a + b) in
  (read_ret r = LY_SUCCESS <-> read_ret r1 = LY_SUCCESS /\ read_ret r2 = LY_SUCCESS)
  /\ (read_ret r = LY_SUCCESS ->
      after_read r = after_read r2
      /\ exists bytes1 bytes2,
           snd r1 = Some bytes1 /\ snd r2 = Some bytes2
           /\ snd r = Some (bytes1 ++ bytes2)).
Proof.
  intros Hin Ha Hb r1 r2 r. subst r1 r2 r.
  pose proof (at_eof_sum i a b Hin Ha Hb) as Hsum.
  destruct (at_eof i (a + b)) eqn:Eab.
  - rewrite (read_eof _ _ _ Eab). cbn [read_ret fst]. split; [| discriminate].
    split; [discriminate |]. intros (H1 & H2). exfalso.
    destruct (at_eof i a) eqn:Ea.
    + rewrite (read_eof _ _ _ Ea) in H1. discriminate H1.
    + rewrite (read_ok _ _ _ Ea) in H2. cbn [after_read fst snd] in H2.
      destruct (at_eof (set_current i (current i + a)) b) eqn:Eb.
      * rewrite (read_eof _ _ _ Eb) in H2. discriminate H2.
      * destruct Hsum as [_ Hback]. specialize (Hback (conj eq_refl eq_refl)).
        discriminate Hback.
  - destruct Hsum as [Hfwd _]. destruct (Hfwd eq_refl) as (Ea & Eb).
    rewrite (read_ok _ _ _ Eab), (read_ok _ _ _ Ea).
    cbn [after_read read_ret fst snd].
    rewrite (read_ok _ _ _ Eb). cbn [after_read read_ret fst snd current set_current].
    split; [tauto |]. intros _. split.
    + rewrite set_current_twice. f_equal. lia.
    + eexists. eexists. split; [reflexivity |]. split; [reflexivity |].
      f_equal. apply mem_bytes_app; assumption.
Qed.

Lemma reads_compose_witness :
  snd (ly_in_read (src_mem src_ab) (set_current in_fd16 4096) 3)
  = Some ([x61] ++ [x62; x00]).
Proof.
  destruct (reads_compose (src_mem src_ab) (set_current in_fd16 4096) 1 2
              ltac:(unfold inside, in_size_t; cbn; lia) ltac:(lia) ltac:(lia))
    as (_ & H).
  destruct (H eq_refl) as (_ & b1 & b2 & E1 & E2 & E).
  cbn in E1, E2. injection E1 as <-. injection E2 as <-. exact E.
Defined.

(** ** What a read hands out *)

Lemma source_window (s : source) (off n : Z) :
  0 <= off -> 0 <= n -> off + n <= Z.of_nat (List.length (src_bytes s)) ->
  mem_bytes (src_mem s) (src_base s + off) n
  = firstn (Z.to_nat n) (skipn (Z.to_nat off) (src_bytes s)).
Proof.
  intros Hoff Hn Hfit. unfold mem_bytes.
  apply nth_ext with (d := x00) (d' := x00).
  - rewrite length_map, length_seq, length_firstn, length_skipn. lia.
  - intros k Hk. rewrite length_map, length_seq in Hk.
    rewrite (nth_indep _ x00 (src_mem s (src_base s + off + Z.of_nat 0)))
      by (rewrite length_map, length_seq; exact Hk).
    rewrite (map_nth (fun j => src_mem s (src_base s + off + Z.of_nat j))).
    rewrite seq_nth by exact Hk. cbn [Nat.add].
    rewrite nth_firstn, nth_skipn.
    destruct (Nat.ltb_spec k (Z.to_nat n)) as [_ | Hge]; [| lia].
    unfold src_mem.
    destruct (Z.leb_spec (src_base s) (src_base s + off + Z.of_nat k)); [| lia].
    destruct (Z.ltb_spec (src_base s + off + Z.of_nat k)
                (src_base s + Z.of_nat (List.length (src_bytes s)))); [| lia].
    cbn [andb]. f_equal. lia.
Qed.

(** X2: a read that succeeds on a handler with a length stays inside the
    data: every address it copies from lies in the [length] bytes that
    begin at [start], and the bytes handed out are the next [n] bytes of
    the source, in order. *)
Theorem read_stays_in_source (s : source) (i : ly_in) (n : Z) :
  inside i -> length i <> 0 -> 0 <= n ->
  start i = src_base s -> length i = Z.of_nat (List.length (src_bytes s)) ->
  read_ret (ly_in_read (src_mem s) i n) = LY_SUCCESS ->
  (forall k, 0 <= k < n -> start i <= current i + k < start i + length i)
  /\ snd (ly_in_read (src_mem s) i n)
     = Some (firstn (Z.to_nat n) (skipn (Z.to_nat (current i - start i)) (src_bytes s)))
  /\ inside (after_read (ly_in_read (src_mem s) i n)).
Proof.
  intros Hin Hlen Hn Hbase Hsize Hok.
  destruct (at_eof i n) eqn:E.
  { rewrite (read_eof _ _ _ E) in Hok. discriminate Hok. }
  rewrite (read_ok _ _ _ E). cbn [snd after_read fst].
  rewrite at_eof_known_length in E by assumption. apply Z.ltb_ge in E.
  destruct Hin as (Hl & Hpos). specialize (Hpos Hlen).
  split; [intros k Hk; lia |]. split.
  - f_equal. replace (current i) with (src_base s + (current i - start i)) at 1 by lia.
    apply source_window; lia.
  - split; [exact Hl |]. cbn [length current start set_current]. intros _. lia.
Qed.

Lemma read_stays_in_source_witness :
  snd (ly_in_read (src_mem src_ab) (mk_ly_in LY_IN_FD 4097 4096 4096 3 (method_fd 3)) 2)
  = Some [x62; x00].
Proof.
  destruct (read_stays_in_source src_ab
              (mk_ly_in LY_IN_FD 4097 4096 4096 3 (method_fd 3)) 2
              ltac:(unfold inside, in_size_t; cbn; lia) ltac:(cbn; discriminate)
              ltac:(lia) eq_refl eq_refl eq_refl) as (_ & H & _).
  exact H.
Defined.

(** ** The end of the input *)

(** X3: once the bytes that were left have been read or skipped, the
    handler is at the end of its input: every further read or skip of one
    byte or more is refused with [LY_EDENIED] and changes nothing, and
    only a count of 0 is still accepted. *)
Theorem exhausted_input_refuses (mem : Z -> byte) (i : ly_in) (n : Z) :
  inside i -> length i <> 0 ->
  let left := length i - (current i - start i) in
  let e := snd (ly_in_skip i left) in
  ly_in_skip i left = (LY_SUCCESS, set_current i (start i + length i))
  /\ (0 < n -> ly_in_skip e n = (LY_EDENIED, e)
             /\ ly_in_read mem e n = (LY_EDENIED, e, None))
  /\ ly_in_skip e 0 = (LY_SUCCESS, e).
Proof.
  intros Hin Hlen left e.
  pose proof Hin as (Hl & Hpos). specialize (Hpos Hlen).
  assert (Eleft : at_eof i left = false).
  { rewrite at_eof_known_length by assumption. apply Z.ltb_ge. subst left. lia. }
  assert (Ee : e = set_current i (start i + length i)).
  { subst e. rewrite (skip_ok _ _ Eleft). cbn [snd]. f_equal. subst left. lia. }
  assert (Hine : inside e).
  { rewrite Ee. split; [exact Hl |]. cbn [length current start set_current]. lia. }
  assert (Hlene : length e <> 0) by (rewrite Ee; exact Hlen).
  split; [| split].
  - rewrite (skip_ok _ _ Eleft). f_equal. f_equal. subst left. lia.
  - intros Hn.
    assert (E : at_eof e n = true).
    { rewrite at_eof_known_length by assumption. apply Z.ltb_lt.
      rewrite Ee. cbn [length current start set_current]. lia. }
    split; [apply skip_eof | apply read_eof]; exact E.
  - assert (E : at_eof e 0 = false).
    { rewrite at_eof_known_length by assumption. apply Z.ltb_ge.
      rewrite Ee. cbn [length current start set_current]. lia. }
    rewrite (skip_ok _ _ E). f_equal. rewrite Ee. cbn [current set_current].
    rewrite set_current_twice, Z.add_0_r. reflexivity.
Qed.

Lemma exhausted_input_refuses_witness :
  ly_in_skip (set_current in_fd16 4112) 1 = (LY_EDENIED, set_current in_fd16 4112).
Proof.
  destruct (exhausted_input_refuses (fun _ => x00) in_fd16 1 in_fd16_inside
              ltac:(cbn; discriminate)) as (_ & H & _).
  destruct (H ltac:(lia)) as (Hs & _). exact Hs.
Defined.

(** ** A run of skips *)

Import LyInOps.

Lemma skip_steps (i : ly_in) (n : Z) :
  inside i -> 0 <= n ->
  inside (snd (ly_in_skip i n))
  /\ start (snd (ly_in_skip i n)) = start i
  /\ length (snd (ly_in_skip i n)) = length i
  /\ func_start (snd (ly_in_skip i n)) = func_start i
  /\ type (snd (ly_in_skip i n)) = type i
  /\ method (snd (ly_in_skip i n)) = method i
  /\ current (snd (ly_in_skip i n))
     = current i + match fst (ly_in_skip i n) with
                   | LY_SUCCESS => n
                   | _ => 0
                   end.
Proof.
  intros Hin Hn. destruct (at_eof i n) eqn:E.
  - rewrite (skip_eof _ _ E). cbn [fst snd].
    split; [exact Hin |]. repeat split. lia.
  - rewrite (skip_ok _ _ E). cbn [fst snd length current start set_current
      func_start type method].
    split; [| repeat split].
    pose proof Hin as (Hl & Hpos). split; [exact Hl |].
    cbn [length current start set_current]. intros Hlen. specialize (Hpos Hlen).
    rewrite at_eof_known_length in E by assumption.
    apply Z.ltb_ge in E. lia.
Qed.

Lemma consume_steps (counts : list Z) :
  forall i, inside i -> Forall (fun n => 0 <= n) counts ->
  inside (consume counts i)
  /\ start (consume counts i) = start i
  /\ length (consume counts i) = length i
  /\ func_start (consume counts i) = func_start i
  /\ type (consume counts i) = type i
  /\ method (consume counts i) = method i
  /\ current (consume counts i) = current i + accepted counts i
  /\ 0 <= accepted counts i.
Proof.
  induction counts as [| n rest IH]; intros i Hin Hall.
  - cbn [consume accepted]. split; [exact Hin |]. repeat split; lia.
  - inversion Hall as [| ? ? Hn Hrest]; subst.
    destruct (skip_steps i n Hin Hn) as (Hin1 & Hs & Hl & Hf & Ht & Hm & Hc).
    destruct (IH _ Hin1 Hrest) as (Hin2 & Hs2 & Hl2 & Hf2 & Ht2 & Hm2 & Hc2 & Hpos).
    cbn [consume accepted].
    split; [exact Hin2 |]. split; [congruence |]. split; [congruence |].
    split; [congruence |]. split; [congruence |]. split; [congruence |].
    split; [rewrite Hc2, Hc; lia |].
    destruct (fst (ly_in_skip i n)); lia.
Qed.

(** X4: over any run of skips, whatever their counts, a handler with a
    length never moves past its data: the counts that were accepted add
    up to no more than the bytes that were left.  [start], [length],
    [func_start], the type and the [method] of the handler stay as they
    were, [current] and [ly_in_parsed] grow by the total of the accepted
    counts, and [ly_in_reset] afterwards gives the handler that it would
    have given before the run. *)
Theorem skips_add_up (counts : list Z) (i : ly_in) :
  positioned i -> length i <> 0 -> Forall (fun n => 0 <= n) counts ->
  let e := consume counts i in
  0 <= accepted counts i <= length i - (current i - start i)
  /\ current e = current i + accepted counts i
  /\ ly_in_parsed e = ly_in_parsed i + accepted counts i
  /\ positioned e
  /\ ly_in_reset (Some e) = ly_in_reset (Some i).
Proof.
  intros Hpos Hlen Hall e. pose proof Hpos as (Hin & Hs & Hf & Hc).
  destruct (consume_steps counts i Hin Hall)
    as (Hin' & Hs' & Hl' & Hf' & Ht' & Hm' & Hc' & Hacc).
  fold e in Hin', Hs', Hl', Hf', Ht', Hm', Hc'.
  pose proof Hin as (Hl & Hp). specialize (Hp Hlen).
  pose proof Hin' as (_ & Hp'). rewrite Hl' in Hp'. specialize (Hp' Hlen).
  assert (Hpose : positioned e).
  { split; [exact Hin' |]. rewrite Hs', Hf', Hc'. lia. }
  split; [rewrite Hc', Hs' in Hp'; lia |]. split; [exact Hc' |]. split.
  - rewrite (parsed_exact e), (parsed_exact i).
    + rewrite Hc', Hf'. lia.
    + exact Hc.
    + apply consumed_in_range; assumption.
    + rewrite Hf', Hc'. lia.
    + apply consumed_in_range; [exact Hpose | rewrite Hl'; exact Hlen].
  - split; [exact Hpose |].
    unfold ly_in_reset. rewrite Ht', Hs', Hl', Hm'. reflexivity.
Qed.

Lemma skips_add_up_witness :
  accepted [3; 5; 1; 0; 7] in_fd16 = 4
  /\ ly_in_parsed (consume [3; 5; 1; 0; 7] in_fd16) = 8.
Proof.
  destruct (skips_add_up [3; 5; 1; 0; 7] in_fd16 in_fd16_positioned
              ltac:(cbn; discriminate)
              ltac:(repeat constructor; lia)) as (_ & _ & H & _).
  split; [reflexivity | exact H].
Defined.

End LyInReadFacts.

Module LyInOpsFacts.

Import LyIn LyInOps.

(** ** Creating a handler *)

Lemma acquired_app (sys : system) (t1 t2 : list event) :
  acquired sys (t1 ++ t2) = acquired sys t1 ++ acquired sys t2.
Proof.
  induction t1 as [| e t1 IH]; [reflexivity |].
  destruct e; cbn [app acquired]; rewrite ?IH, ?app_assoc; reflexivity.
Qed.

Lemma munmap_calls_app (t1 t2 : list event) :
  munmap_calls (t1 ++ t2) = munmap_calls t1 ++ munmap_calls t2.
Proof.
  induction t1 as [| e t1 IH]; [reflexivity |].
  destruct e; cbn [app munmap_calls]; rewrite ?IH; reflexivity.
Qed.



(** ** The mapping a handler holds *)

Lemma events_of_made (tr : list event) : events_of (map made tr) = tr.
Proof. induction tr as [| e tr IH]; [reflexivity |]. cbn. rewrite IH. reflexivity. Qed.

Lemma events_of_app (t1 t2 : list call) :
  events_of (t1 ++ t2) = events_of t1 ++ events_of t2.
Proof.
  induction t1 as [| c t1 IH]; [reflexivity |].
  destruct c; cbn [app events_of]; rewrite ?IH; reflexivity.
Qed.

Lemma owns_retyped (h : ly_in) (t : LY_IN_TYPE) (m : ly_in_method) :
  mapped h = true -> (t = LY_IN_FD \/ t = LY_IN_FILE \/ t = LY_IN_FILEPATH) ->
  owns (Some (set_type_method h t m)) = owns (Some h).
Proof.
  unfold owns, mapped. intros Hm Ht. cbn [type start length set_type_method].
  rewrite Hm. destruct Ht as [-> | [-> | ->]]; reflexivity.
Qed.

(** [ly_in_fd] keeps the type of the handler. *)
Lemma fd_keeps_type (sys : system) (h h' : ly_in) (fd r : Z) (tr : list event) :
  ly_in_fd sys (Some h) fd = Some (r, Some h', tr) -> type h' = type h.
Proof.
  unfold ly_in_fd. intros H.
  destruct (type h) eqn:Et; try (injection H as _ <- _; exact Et).
  destruct (method_fd_of (method h)); [| discriminate H].
  destruct (fd =? -1); [injection H as _ <- _; exact Et |].
  destruct (ly_mmap sys fd) as [[ret len] addr].
  destruct ret; try (injection H as _ <- _; exact Et).
  destruct (addr =? NULL); injection H as _ <- _; [exact Et | exact Et].
Qed.

Lemma fd_ledger (sys : system) (i h' : option ly_in) (fd r : Z) (tr : list event) :
  ly_in_fd sys i fd = Some (r, h', tr) ->
  owns i ++ acquired sys tr = munmap_calls tr ++ owns h'.
Proof.
  unfold ly_in_fd. intros H.
  destruct i as [h |]; [| injection H as _ <- <-; reflexivity].
  destruct (type h) eqn:Et; try (injection H as _ <- <-; cbn; apply app_nil_r).
  destruct (method_fd_of (method h)); [| discriminate H].
  destruct (fd =? -1); [injection H as _ <- <-; cbn; apply app_nil_r |].
  destruct (ly_mmap sys fd) as [[ret len] addr] eqn:E.
  destruct ret;
    try (injection H as _ <- <-; cbn [acquired munmap_calls]; unfold acquired_at;
         rewrite E; cbn; apply app_nil_r).
  destruct (Z.eqb_spec addr NULL) as [E0 | Hne]; injection H as _ <- <-;
    cbn [acquired munmap_calls]; unfold acquired_at; rewrite E.
  - rewrite E0. cbn. apply app_nil_r.
  - destruct (Z.eqb_spec addr NULL) as [E0 | _]; [contradiction |].
    unfold owns, mapped, remap. cbn [type start length]. rewrite Et. reflexivity.
Qed.

Lemma file_ledger (sys : system) (i h' : option ly_in) (f r : Z) (tr : list event) :
  ly_in_file sys i f = Some (r, h', tr) ->
  owns i ++ acquired sys tr = munmap_calls tr ++ owns h'.
Proof.
  unfold ly_in_file. intros H.
  destruct i as [h |]; [| injection H as _ <- <-; reflexivity].
  destruct (type h) eqn:Et; try (injection H as _ <- <-; cbn; apply app_nil_r).
  destruct (method_f_of (method h)) as [prev_f |]; [| discriminate H].
  destruct (f =? NULL); [injection H as _ <- <-; cbn; apply app_nil_r |].
  cbv zeta in H.
  destruct (ly_in_fd sys _ (fileno sys f)) as [[[r0 [h2 |]] tr0] |] eqn:Efd;
    try discriminate H.
  pose proof (fd_ledger _ _ _ _ _ _ Efd) as Hl.
  pose proof (fd_keeps_type _ _ _ _ _ _ Efd) as Hty. cbn [type set_type_method] in Hty.
  assert (Hm2 : mapped h2 = true) by (unfold mapped; rewrite Hty; reflexivity).
  assert (Hown : owns (Some h) = owns (Some (set_type_method h LY_IN_FD
                     (store_fd (method h) (fileno sys prev_f))))).
  { symmetry. apply owns_retyped; [unfold mapped; rewrite Et; reflexivity | auto]. }
  destruct (r0 =? -1); injection H as _ <- <-; rewrite Hown, Hl; f_equal; symmetry;
    apply owns_retyped; auto.
Qed.

Lemma filepath_ledger (sys : system) (i h' : option ly_in) (filepath : option string)
    (len : Z) (r : path_ret) (tr : list call) :
  ly_in_filepath sys i filepath len = Some (r, h', tr) ->
  owns i ++ acquired sys (events_of tr) = munmap_calls (events_of tr) ++ owns h'.
Proof.
  unfold ly_in_filepath. intros H.
  destruct i as [h |]; [| injection H as _ <- <-; reflexivity].
  destruct (type h) eqn:Et; try (injection H as _ <- <-; cbn; apply app_nil_r).
  destruct filepath as [path |].
  - cbv zeta in H. destruct (c_open sys (dup_path path len) =? 0);
      [injection H as _ <- <-; cbn; apply app_nil_r |].
    destruct (ly_in_fd sys _ (c_open sys (dup_path path len)))
      as [[[r0 [h2 |]] tr0] |] eqn:Efd; try discriminate H.
    pose proof (fd_ledger _ _ _ _ _ _ Efd) as Hl.
    pose proof (fd_keeps_type _ _ _ _ _ _ Efd) as Hty.
    cbn [type set_type set_type_method] in Hty.
    assert (Hown : owns (Some h) = owns (Some (set_type h LY_IN_FD))).
    { symmetry. apply owns_retyped; [unfold mapped; rewrite Et; reflexivity | auto]. }
    assert (Hm2 : mapped h2 = true) by (unfold mapped; rewrite Hty; reflexivity).
    destruct (r0 =? -1).
    + injection H as _ <- <-. cbn [events_of]. rewrite events_of_app, events_of_made.
      cbn [events_of acquired munmap_calls].
      rewrite acquired_app, munmap_calls_app. cbn [acquired munmap_calls].
      rewrite !app_nil_r, Hown, Hl. f_equal. symmetry. apply owns_retyped; auto.
    + destruct (method_filepath_of (method h2)); [| discriminate H].
      injection H as _ <- <-. cbn [events_of]. rewrite events_of_app, events_of_made.
      cbn [events_of acquired munmap_calls].
      rewrite acquired_app, munmap_calls_app. cbn [acquired munmap_calls].
      rewrite !app_nil_r, Hown, Hl. f_equal. symmetry. apply owns_retyped; auto.
  - destruct (method_filepath_of (method h)); [| discriminate H].
    injection H as _ <- <-. cbn. apply app_nil_r.
Qed.

(** X6: the functions that replace the data of a handler and the one that
    frees it account for every mapping.  Over a call of [ly_in_fd],
    [ly_in_file], [ly_in_filepath] or [ly_in_memory], the mapping the
    handler held before together with the mappings [ly_mmap] handed out
    are the mappings passed to [ly_munmap] together with the one the
    handler holds afterwards; [ly_in_free] unmaps what the handler
    holds, once. *)
Theorem mappings_accounted_for (sys : system) (i : option ly_in) :
  (forall fd r h' tr, ly_in_fd sys i fd = Some (r, h', tr) ->
     owns i ++ acquired sys tr = munmap_calls tr ++ owns h')
  /\ (forall f r h' tr, ly_in_file sys i f = Some (r, h', tr) ->
     owns i ++ acquired sys tr = munmap_calls tr ++ owns h')
  /\ (forall filepath len r h' tr,
     ly_in_filepath sys i filepath len = Some (r, h', tr) ->
     owns i ++ acquired sys (events_of tr) = munmap_calls (events_of tr) ++ owns h')
  /\ (forall str, owns (snd (fst (ly_in_memory i str))) = owns i
                 /\ munmap_calls (snd (ly_in_memory i str)) = [])
  /\ (forall destroy tr, ly_in_free i destroy = Some tr ->
     munmap_calls (events_of tr) = owns i).
Proof.
  split; [intros; eapply fd_ledger; eassumption |].
  split; [intros; eapply file_ledger; eassumption |].
  split; [intros; eapply filepath_ledger; eassumption |]. split.
  - intros str. destruct i as [h |]; [| split; reflexivity].
    unfold ly_in_memory, owns, mapped.
    destruct (type h) eqn:Et; cbn [fst snd]; rewrite ?Et;
      try (split; reflexivity).
    destruct (str =? NULL); cbn [fst snd type]; rewrite ?Et; split; reflexivity.
  - intros destroy tr H. unfold ly_in_free in H.
    destruct i as [h |]; [| injection H as <-; reflexivity].
    unfold owns, mapped.
    destruct (type h) eqn:Et; cbv zeta in H.
    + injection H as <-. reflexivity.
    + destruct destroy.
      * destruct (method_fd_of (method h)); [| discriminate H].
        injection H as <-. reflexivity.
      * injection H as <-. reflexivity.
    + destruct destroy.
      * destruct (method_f_of (method h)); [| discriminate H].
        injection H as <-. reflexivity.
      * injection H as <-. reflexivity.
    + destruct (method_fd_of (method h)); [| discriminate H].
      destruct (method_filepath_of (method h)); [| discriminate H].
      injection H as <-. reflexivity.
    + destruct destroy; injection H as <-; reflexivity.
Qed.

Lemma mappings_accounted_for_witness :
  ly_in_fd sys_two (Some in_fd3) 5
  = Some (3, Some (remap in_fd3 8192 32 5), [ev_mmap 5; ev_munmap 4096 16])
  /\ [(4096, 16)] ++ [(8192, 32)] = [(4096, 16)] ++ owns (Some (remap in_fd3 8192 32 5)).
Proof.
  destruct (mappings_accounted_for sys_two (Some in_fd3)) as (Hfd & _).
  assert (E : ly_in_fd sys_two (Some in_fd3) 5
              = Some (3, Some (remap in_fd3 8192 32 5), [ev_mmap 5; ev_munmap 4096 16]))
    by reflexivity.
  split; [exact E |]. exact (Hfd _ _ _ _ E).
Defined.

(** ** Replacing the descriptor *)

Lemma maps_to_acquired (sys : system) (fd addr len : Z) :
  maps_to sys fd addr len ->
  ly_mmap sys fd = (LY_SUCCESS, len, addr) /\ (addr =? NULL) = false.
Proof.
  intros (E & Hne). split; [exact E |]. apply Z.eqb_neq. exact Hne.
Qed.

Lemma fd_refused (sys : system) (h : ly_in) (fd prev : Z) :
  type h = LY_IN_FD -> method_fd_of (method h) = Some prev ->
  fd <> -1 -> maps_nothing sys fd ->
  exists tr, ly_in_fd sys (Some h) fd = Some (-1, Some h, tr)
             /\ munmap_calls tr = [] /\ acquired sys tr = [].
Proof.
  intros Et Em Hfd Hno. unfold ly_in_fd. rewrite Et, Em.
  destruct (Z.eqb_spec fd (-1)) as [E | _]; [contradiction |].
  destruct (ly_mmap sys fd) as [[ret len] addr] eqn:E.
  destruct ret; try (eexists; split; [reflexivity |]; cbn [munmap_calls acquired];
    unfold acquired_at; rewrite E; split; reflexivity).
  rewrite (Hno _ _ E). cbn. eexists. split; [reflexivity |].
  cbn [munmap_calls acquired]. unfold acquired_at. rewrite E, (Hno _ _ E).
  split; reflexivity.
Qed.

Lemma fd_replaced (sys : system) (h : ly_in) (fd prev addr len : Z) :
  type h = LY_IN_FD -> method_fd_of (method h) = Some prev ->
  fd <> -1 -> maps_to sys fd addr len ->
  ly_in_fd sys (Some h) fd
  = Some (prev, Some (remap h addr len fd), [ev_mmap fd; ev_munmap (start h) (length h)]).
Proof.
  intros Et Em Hfd Hmap. destruct (maps_to_acquired _ _ _ _ Hmap) as (E & Hne).
  unfold ly_in_fd. rewrite Et, Em.
  destruct (Z.eqb_spec fd (-1)) as [E1 | _]; [contradiction |].
  rewrite E, Hne. reflexivity.
Qed.

Lemma fd_asked (sys : system) (h : ly_in) (prev : Z) :
  type h = LY_IN_FD -> method_fd_of (method h) = Some prev ->
  ly_in_fd sys (Some h) (-1) = Some (prev, Some h, []).
Proof. intros Et Em. unfold ly_in_fd. rewrite Et, Em. reflexivity. Qed.

Lemma store_fd_read (m : ly_in_method) (fd : Z) : method_fd_of (store_fd m fd) = Some fd.
Proof. destruct m; reflexivity. Qed.

(** X7: [ly_in_fd] replaces the data of a descriptor handler as a whole or
    not at all.  With descriptor -1 it only tells the descriptor in use.
    When [ly_mmap] hands out no mapping for the new descriptor it returns
    -1, keeps the handler as it was and unmaps nothing.  When [ly_mmap]
    hands out a mapping it returns the descriptor that was in use, unmaps
    the old mapping, and the handler reads from the start of the new one:
    asking again tells the new descriptor, and after [ly_in_reset] the
    handler is the one [ly_in_new_fd] makes for that descriptor.
    [func_start] is not moved by [ly_in_fd] itself.  A handler of another
    type is refused with -1 and left alone. *)
Theorem fd_replaces_or_keeps (sys : system) (h : ly_in) (fd prev : Z) :
  type h = LY_IN_FD -> method h = method_fd prev ->
  ly_in_fd sys (Some h) (-1) = Some (prev, Some h, [])
  /\ (fd <> -1 -> maps_nothing sys fd ->
      exists tr, ly_in_fd sys (Some h) fd = Some (-1, Some h, tr)
                 /\ munmap_calls tr = [])
  /\ (forall addr len, fd <> -1 -> maps_to sys fd addr len ->
      exists h',
        ly_in_fd sys (Some h) fd
        = Some (prev, Some h', [ev_mmap fd; ev_munmap (start h) (length h)])
        /\ ly_in_fd sys (Some h') (-1) = Some (fd, Some h', [])
        /\ current h' = addr /\ start h' = addr /\ length h' = len
        /\ func_start h' = func_start h
        /\ (0 <= fd -> calloc_ok sys = true ->
            cell_of (ly_in_new_fd sys fd (Some None))
            = Some (snd (ly_in_reset (Some h')))))
  /\ (forall g, type g <> LY_IN_FD ->
      exists tr, ly_in_fd sys (Some g) fd = Some (-1, Some g, tr)
                 /\ munmap_calls tr = [] /\ acquired sys tr = []).
Proof.
  intros Et Em.
  assert (Em' : method_fd_of (method h) = Some prev) by (rewrite Em; reflexivity).
  split; [apply fd_asked; assumption |]. split; [| split].
  - intros Hfd Hno. destruct (fd_refused sys h fd prev Et Em' Hfd Hno) as (tr & E & Hu & _).
    exists tr. split; assumption.
  - intros addr len Hfd Hmap. exists (remap h addr len fd).
    split; [apply fd_replaced; assumption |]. split.
    + apply fd_asked; [exact Et | apply store_fd_read].
    + repeat split. intros Hpos Hc.
      destruct (maps_to_acquired _ _ _ _ Hmap) as (E & Hne).
      unfold ly_in_new_fd.
      destruct (Z.ltb_spec fd 0) as [Hneg | _]; [lia |].
      rewrite E, Hne, Hc. cbn [cell_of fst snd ly_in_reset remap type start length method].
      rewrite Et, Em. reflexivity.
  - intros g Hg. unfold ly_in_fd.
    destruct (type g); try contradiction; eexists; split; try reflexivity;
      split; reflexivity.
Qed.

Lemma fd_replaces_or_keeps_witness :
  ly_in_fd sys_two (Some in_fd3) (-1) = Some (3, Some in_fd3, [])
  /\ (exists tr, ly_in_fd sys_two (Some in_fd3) 7 = Some (-1, Some in_fd3, tr)
                 /\ munmap_calls tr = [])
  /\ cell_of (ly_in_new_fd sys_two 5 (Some None))
     = Some (snd (ly_in_reset (Some (remap in_fd3 8192 32 5)))).
Proof.
  destruct (fd_replaces_or_keeps sys_two in_fd3 7 3 eq_refl eq_refl) as (H1 & H2 & _).
  destruct (fd_replaces_or_keeps sys_two in_fd3 5 3 eq_refl eq_refl) as (_ & _ & H3 & _).
  split; [exact H1 |]. split.
  - apply H2; [lia |]. intros len addr E. cbn in E. injection E as _ <-. reflexivity.
  - destruct (H3 8192 32 ltac:(lia) ltac:(split; [reflexivity | discriminate]))
      as (h' & E & _ & _ & _ & _ & _ & Hnew).
    cbn in E. injection E as <-. apply Hnew; [lia | reflexivity].
Defined.

(** ** Replacing the file *)

Lemma retyped_back (h : ly_in) (m : ly_in_method) :
  set_type_method (set_type_method h LY_IN_FD m) (type h) (method h) = h.
Proof. destruct h; reflexivity. Qed.

(** X8: [ly_in_file] replaces the file of a file handler or puts the
    handler back.  With a [NULL] file it only tells the file in use.  When
    [ly_mmap] hands out no mapping for the new file it returns [NULL] and
    the handler, retyped for the call of [ly_in_fd], is exactly as before.
    When [ly_mmap] hands out a mapping and the file in use has a
    descriptor ([fileno] does not give -1), it returns the file that was
    in use, the old mapping is unmapped and the handler is a file handler
    at the start of the new data; asking again tells the new file.  A new
    file without a descriptor ([fileno] gives -1) is stored without any
    mapping being made, when the file in use has a descriptor.  When the
    file in use has none, the -1 that [ly_in_fd] returns for it is taken
    for a failure: the call returns [NULL] and keeps the file in use, a
    new file without a descriptor is not stored, and a new file that
    [ly_mmap] maps has its data put in place of the old all the same. *)
Theorem file_replaces_or_restores (sys : system) (h : ly_in) (f prev : Z) :
  type h = LY_IN_FILE -> method h = method_f prev ->
  ly_in_file sys (Some h) NULL = Some (prev, Some h, [])
  /\ (f <> NULL -> fileno sys f <> -1 -> maps_nothing sys (fileno sys f) ->
      exists tr, ly_in_file sys (Some h) f = Some (NULL, Some h, tr)
                 /\ munmap_calls tr = [])
  /\ (forall addr len,
      f <> NULL -> fileno sys f <> -1 -> fileno sys prev <> -1 ->
      maps_to sys (fileno sys f) addr len ->
      let h' := mk_ly_in LY_IN_FILE addr (func_start h) addr len (method_f f) in
      ly_in_file sys (Some h) f
      = Some (prev, Some h', [ev_mmap (fileno sys f); ev_munmap (start h) (length h)])
      /\ ly_in_file sys (Some h') NULL = Some (f, Some h', []))
  /\ (f <> NULL -> fileno sys f = -1 -> fileno sys prev <> -1 ->
      ly_in_file sys (Some h) f
      = Some (prev, Some (set_type_method h LY_IN_FILE (method_f f)), []))
  /\ (forall addr len,
      f <> NULL -> fileno sys f <> -1 -> fileno sys prev = -1 ->
      maps_to sys (fileno sys f) addr len ->
      ly_in_file sys (Some h) f
      = Some (NULL,
              Some (mk_ly_in LY_IN_FILE addr (func_start h) addr len (method_f prev)),
              [ev_mmap (fileno sys f); ev_munmap (start h) (length h)]))
  /\ (f <> NULL -> fileno sys f = -1 -> fileno sys prev = -1 ->
      ly_in_file sys (Some h) f = Some (NULL, Some h, [])).
Proof.
  intros Et Em.
  assert (Ef : method_f_of (method h) = Some prev) by (rewrite Em; reflexivity).
  assert (Eh1 : forall fd, type (set_type_method h LY_IN_FD (store_fd (method h) fd))
                           = LY_IN_FD) by reflexivity.
  assert (Em1 : forall fd, method_fd_of (method (set_type_method h LY_IN_FD
                             (store_fd (method h) fd))) = Some fd).
  { intros fd. cbn [method set_type_method]. apply store_fd_read. }
  split; [| split; [| split; [| split; [| split]]]].
  - unfold ly_in_file. rewrite Et, Ef. reflexivity.
  - intros Hf Hno Hnone.
    destruct (fd_refused sys _ (fileno sys f) _ (Eh1 (fileno sys prev))
                (Em1 (fileno sys prev)) Hno Hnone) as (tr & E & Hu & _).
    exists tr. split; [| exact Hu].
    unfold ly_in_file. rewrite Et, Ef.
    destruct (Z.eqb_spec f NULL) as [E0 | _]; [contradiction |].
    cbv zeta. rewrite E. cbn [Z.eqb Pos.eqb].
    rewrite <- Em, <- Et, retyped_back. reflexivity.
  - intros addr len Hf Hno Hprev Hmap h'.
    pose proof (fd_replaced sys _ (fileno sys f) _ addr len (Eh1 (fileno sys prev))
                  (Em1 (fileno sys prev)) Hno Hmap) as E.
    split.
    + unfold ly_in_file. rewrite Et, Ef.
      destruct (Z.eqb_spec f NULL) as [E0 | _]; [contradiction |].
      cbv zeta. rewrite E.
      destruct (Z.eqb_spec (fileno sys prev) (-1)) as [E1 | _]; [contradiction |].
      reflexivity.
    + reflexivity.
  - intros Hf Hno Hprev.
    unfold ly_in_file. rewrite Et, Ef.
    destruct (Z.eqb_spec f NULL) as [E0 | _]; [contradiction |].
    cbv zeta. rewrite Hno.
    rewrite (fd_asked sys _ _ (Eh1 (fileno sys prev)) (Em1 (fileno sys prev))).
    destruct (Z.eqb_spec (fileno sys prev) (-1)) as [E1 | _]; [contradiction |].
    reflexivity.
  - intros addr len Hf Hno Hprev Hmap.
    pose proof (fd_replaced sys _ (fileno sys f) _ addr len (Eh1 (fileno sys prev))
                  (Em1 (fileno sys prev)) Hno Hmap) as E.
    unfold ly_in_file. rewrite Et, Ef.
    destruct (Z.eqb_spec f NULL) as [E0 | _]; [contradiction |].
    cbv zeta. rewrite E.
    destruct (Z.eqb_spec (fileno sys prev) (-1)) as [_ | E1]; [| contradiction].
    reflexivity.
  - intros Hf Hno Hprev.
    unfold ly_in_file. rewrite Et, Ef.
    destruct (Z.eqb_spec f NULL) as [E0 | _]; [contradiction |].
    cbv zeta. rewrite Hno.
    rewrite (fd_asked sys _ _ (Eh1 (fileno sys prev)) (Em1 (fileno sys prev))).
    destruct (Z.eqb_spec (fileno sys prev) (-1)) as [_ | E1]; [| contradiction].
    rewrite <- Em, <- Et, retyped_back. reflexivity.
Qed.

Lemma file_replaces_or_restores_witness :
  ly_in_file sys_two (Some in_file8) 9
  = Some (8, Some (mk_ly_in LY_IN_FILE 8192 4098 8192 32 (method_f 9)),
          [ev_mmap 5; ev_munmap 4096 16])
  /\ ly_in_file sys_two (Some in_file8) 4
     = Some (8, Some (set_type_method in_file8 LY_IN_FILE (method_f 4)), [])
  /\ ly_in_file sys_two (Some in_file4) 9
     = Some (NULL, Some (mk_ly_in LY_IN_FILE 8192 4098 8192 32 (method_f 4)),
             [ev_mmap 5; ev_munmap 4096 16])
  /\ ly_in_file sys_two (Some in_file4) 6 = Some (NULL, Some in_file4, []).
Proof.
  destruct (file_replaces_or_restores sys_two in_file8 9 8 eq_refl eq_refl)
    as (_ & _ & H & _).
  destruct (file_replaces_or_restores sys_two in_file8 4 8 eq_refl eq_refl)
    as (_ & _ & _ & H4 & _).
  destruct (file_replaces_or_restores sys_two in_file4 9 4 eq_refl eq_refl)
    as (_ & _ & _ & _ & H9 & _).
  destruct (file_replaces_or_restores sys_two in_file4 6 4 eq_refl eq_refl)
    as (_ & _ & _ & _ & _ & H6).
  split; [| split; [| split]].
  - destruct (H 8192 32 ltac:(unfold NULL; lia) ltac:(cbn; lia) ltac:(cbn; lia)
                ltac:(split; [reflexivity | discriminate])) as (E & _).
    exact E.
  - apply H4; unfold NULL; cbn; lia.
  - apply (H9 8192 32); [unfold NULL; lia | cbn; lia | reflexivity |].
    split; [reflexivity | discriminate].
  - apply H6; [unfold NULL; lia | reflexivity | reflexivity].
Defined.

(** ** Replacing the memory *)

(** X9: [ly_in_memory] returns the position reading had reached in the
    data in use, not its start, so after a skip of [n] bytes over a memory
    handler (its [length] is 0) it returns the address [n] bytes in, the
    skip staying inside the address space: [0 <= n], [0 <= current] and
    [current + n < 2^64].  With a [NULL]
    string nothing changes.  With a new string the handler reads from its
    start, asking again returns that start, and after [ly_in_reset] the
    handler is the one [ly_in_new_memory] makes for the string.  A handler
    that is no memory handler is left alone and [NULL] is returned. *)
Theorem memory_replaces_and_tells (sys : system) (h : ly_in) (str n : Z) :
  type h = LY_IN_MEMORY ->
  ly_in_memory (Some h) NULL = (current h, Some h, [])
  /\ (length h = 0 -> 0 <= n -> 0 <= current h -> current h + n < 2 ^ SIZE_BITS ->
      fst (ly_in_skip h n) = LY_SUCCESS
      /\ fst (fst (ly_in_memory (Some (snd (ly_in_skip h n))) NULL)) = current h + n
      /\ in_size_t (current h + n))
  /\ (str <> NULL ->
      exists h',
        ly_in_memory (Some h) str = (current h, Some h', [])
        /\ current h' = str /\ start h' = str
        /\ func_start h' = func_start h /\ length h' = length h
        /\ ly_in_memory (Some h') NULL = (str, Some h', [])
        /\ (length h = 0 -> method h = method_zero -> calloc_ok sys = true ->
            cell_of (ly_in_new_memory sys str (Some None))
            = Some (snd (ly_in_reset (Some h')))))
  /\ (forall g, type g <> LY_IN_MEMORY ->
      fst (ly_in_memory (Some g) str) = (NULL, Some g)).
Proof.
  intros Et. split; [| split; [| split]].
  - unfold ly_in_memory. rewrite Et. reflexivity.
  - intros Hl Hn Hc Hup. unfold ly_in_skip, at_eof. rewrite Hl.
    cbn [negb andb Z.eqb fst snd]. split; [reflexivity |]. split.
    + unfold ly_in_memory. cbn [type set_current current]. rewrite Et. reflexivity.
    + unfold in_size_t. lia.
  - intros Hstr. unfold ly_in_memory. rewrite Et.
    destruct (Z.eqb_spec str NULL) as [E0 | _]; [contradiction |].
    eexists. split; [reflexivity |]. cbn [current start func_start length type].
    repeat split. intros Hl Hm Hc. unfold ly_in_new_memory.
    destruct (Z.eqb_spec str NULL) as [E0 | _]; [contradiction |].
    rewrite Hc. cbn [cell_of fst snd ly_in_reset type start length method].
    rewrite Hl, Hm. reflexivity.
  - intros g Hg. unfold ly_in_memory. destruct (type g); try contradiction; reflexivity.
Qed.

Lemma memory_replaces_and_tells_witness :
  fst (fst (ly_in_memory (Some (snd (ly_in_skip in_ab 2))) NULL)) = 4098
  /\ exists h', ly_in_memory (Some in_ab) 8192 = (4096, Some h', [])
                /\ ly_in_memory (Some h') NULL = (8192, Some h', []).
Proof.
  destruct (memory_replaces_and_tells sys_two in_ab 8192 2 eq_refl) as (_ & H1 & H2 & _).
  split; [apply (H1 eq_refl); cbn; lia |].
  destruct (H2 ltac:(discriminate)) as (h' & E & _ & _ & _ & _ & E' & _).
  exists h'. split; [exact E | exact E'].
Defined.

(** ** Replacing the file path *)

Lemma retyped_path (h : ly_in) :
  type h = LY_IN_FILEPATH -> set_type (set_type h LY_IN_FD) LY_IN_FILEPATH = h.
Proof. destruct h. cbn. intros ->. reflexivity. Qed.

Section FilePath.

Variable sys : system.
Variable h : ly_in.
Variables (ofd : Z) (opath path : string) (len : Z).
Hypothesis Et : type h = LY_IN_FILEPATH.
Hypothesis Em : method h = method_fpath ofd opath.

Let fp := dup_path path len.
Let fd := c_open sys fp.

Lemma filepath_inner_type : type (set_type h LY_IN_FD) = LY_IN_FD.
Proof. reflexivity. Qed.

Lemma filepath_inner_fd : method_fd_of (method (set_type h LY_IN_FD)) = Some ofd.
Proof. cbn [method set_type set_type_method]. rewrite Em. reflexivity. Qed.

Lemma filepath_asked :
  ly_in_filepath sys (Some h) None len = Some (path_is opath, Some h, []).
Proof. unfold ly_in_filepath. rewrite Et, Em. reflexivity. Qed.

Lemma filepath_not_mapped :
  fd <> 0 -> fd <> -1 -> maps_nothing sys fd ->
  exists tr, ly_in_filepath sys (Some h) (Some path) len = Some (path_NULL, Some h, tr)
             /\ munmap_calls (events_of tr) = [] /\ closes tr = []
             /\ freed_paths (events_of tr) = [fp].
Proof.
  intros H0 H1 Hno.
  destruct (fd_refused sys _ fd _ filepath_inner_type filepath_inner_fd H1 Hno)
    as (tr & E & Hu & _).
  exists (made (ev_open fp) :: map made tr ++ [made (ev_free_path fp)]).
  unfold ly_in_filepath. rewrite Et. cbv zeta. fold fp. fold fd.
  destruct (Z.eqb_spec fd 0) as [E0 | _]; [contradiction |].
  rewrite E. cbn [Z.eqb Pos.eqb]. rewrite (retyped_path h Et).
  split; [reflexivity |].
  cbn [events_of closes]. rewrite events_of_app, events_of_made.
  cbn [munmap_calls freed_paths]. rewrite munmap_calls_app, Hu.
  split; [reflexivity |].
  unfold ly_in_fd in E. cbn [type set_type set_type_method] in E.
  rewrite filepath_inner_fd in E.
  destruct (Z.eqb_spec fd (-1)) as [E1 | _]; [contradiction |].
  destruct (ly_mmap sys fd) as [[ret l] addr].
  assert (Hshape : tr = [ev_mmap fd]
                   \/ tr = [ev_mmap fd; ev_logerr LY_EINVAL "Empty input file."]
                   \/ exists a b, tr = [ev_mmap fd; ev_munmap a b]).
  { destruct ret; try (inversion E; auto; fail).
    destruct (addr =? NULL); inversion E; eauto. }
  destruct Hshape as [-> | [-> | (a & b & ->)]]; [split; reflexivity .. |].
  discriminate Hu.
Qed.

Lemma filepath_replaced (addr n : Z) :
  fd <> 0 -> fd <> -1 -> ofd <> -1 -> maps_to sys fd addr n ->
  ly_in_filepath sys (Some h) (Some path) len
  = Some (path_NULL,
          Some (mk_ly_in LY_IN_FILEPATH addr (func_start h) addr n (method_fpath fd fp)),
          [made (ev_open fp); made (ev_mmap fd); made (ev_munmap (start h) (length h));
           call_close ofd; made (ev_free_path opath)]).
Proof.
  intros H0 H1 Hofd Hmap.
  pose proof (fd_replaced sys _ fd _ addr n filepath_inner_type filepath_inner_fd
                H1 Hmap) as E.
  unfold ly_in_filepath. rewrite Et. cbv zeta. fold fp. fold fd.
  destruct (Z.eqb_spec fd 0) as [E0 | _]; [contradiction |].
  rewrite E.
  destruct (Z.eqb_spec ofd (-1)) as [E1 | _]; [contradiction |].
  cbn [method remap set_type set_type_method]. rewrite Em. reflexivity.
Qed.

Lemma filepath_open_zero :
  fd = 0 ->
  ly_in_filepath sys (Some h) (Some path) len
  = Some (path_NULL, Some h,
          [made (ev_open fp); made (ev_logerr LY_ESYS "Failed to open file.");
           made (ev_free_path fp)]).
Proof.
  intros H0. unfold ly_in_filepath. rewrite Et. cbv zeta. fold fp. fold fd.
  rewrite H0. reflexivity.
Qed.

Lemma filepath_open_failed :
  fd = -1 -> ofd <> -1 ->
  ly_in_filepath sys (Some h) (Some path) len
  = Some (path_NULL,
          Some (set_type_method h LY_IN_FILEPATH (method_fpath (-1) fp)),
          [made (ev_open fp); call_close ofd; made (ev_free_path opath)]).
Proof.
  intros H1 Hofd. unfold ly_in_filepath. rewrite Et. cbv zeta. fold fp. fold fd.
  rewrite H1. cbn [Z.eqb].
  rewrite (fd_asked sys _ _ filepath_inner_type filepath_inner_fd).
  destruct (Z.eqb_spec ofd (-1)) as [E1 | _]; [contradiction |].
  cbn [method set_type set_type_method]. rewrite Em. reflexivity.
Qed.

(** With -1 stored as the descriptor in use, the -1 that [ly_in_fd] returns
    for it is read as a failure of [ly_in_fd]. *)
Lemma filepath_replaced_unreported (addr n : Z) :
  fd <> 0 -> fd <> -1 -> ofd = -1 -> maps_to sys fd addr n ->
  ly_in_filepath sys (Some h) (Some path) len
  = Some (path_NULL,
          Some (mk_ly_in LY_IN_FILEPATH addr (func_start h) addr n (method_fpath fd opath)),
          [made (ev_open fp); made (ev_mmap fd); made (ev_munmap (start h) (length h));
           made (ev_free_path fp)]).
Proof.
  intros H0 H1 Hofd Hmap.
  pose proof (fd_replaced sys _ fd _ addr n filepath_inner_type filepath_inner_fd
                H1 Hmap) as E.
  unfold ly_in_filepath. rewrite Et. cbv zeta. fold fp. fold fd.
  destruct (Z.eqb_spec fd 0) as [E0 | _]; [contradiction |].
  rewrite E.
  destruct (Z.eqb_spec ofd (-1)) as [_ | E1]; [| contradiction].
  unfold set_type, remap, set_type_method.
  cbn [method type current func_start start length].
  rewrite Em. reflexivity.
Qed.

Lemma filepath_open_failed_unreported :
  fd = -1 -> ofd = -1 ->
  ly_in_filepath sys (Some h) (Some path) len
  = Some (path_NULL, Some h, [made (ev_open fp); made (ev_free_path fp)]).
Proof.
  intros H1 Hofd. unfold ly_in_filepath. rewrite Et. cbv zeta. fold fp. fold fd.
  rewrite H1. cbn [Z.eqb].
  rewrite (fd_asked sys _ _ filepath_inner_type filepath_inner_fd).
  destruct (Z.eqb_spec ofd (-1)) as [_ | E1]; [| contradiction].
  rewrite (retyped_path h Et). reflexivity.
Qed.

End FilePath.

(** X10: [ly_in_filepath] with a [NULL] path tells the path in use and
    changes nothing.  With a new path that opens and for which [ly_mmap]
    hands out a mapping, when the descriptor in use is not -1, it returns
    [NULL], unmaps the old data, closes the descriptor that was in use
    and frees the old path, and the handler reads from the start of the
    new data under the new path and descriptor.  When the descriptor in
    use is -1, the -1 that [ly_in_fd] returns for it is taken for a
    failure: the old data are unmapped and the handler reads from the
    start of the new data under the new descriptor all the same, but it
    keeps the old path, the copy of the new path is freed and nothing is
    closed.  When the new file cannot be mapped, the handler is exactly
    as before, the copy of the new path is freed and nothing else is
    released.  A handler of another type is left alone; the return value
    is [(void * ) -1] for a [NULL] path and [NULL] otherwise. *)
Theorem filepath_replaces_or_keeps (sys : system) (h : ly_in) (ofd : Z)
    (opath path : string) (len : Z) :
  type h = LY_IN_FILEPATH -> method h = method_fpath ofd opath ->
  let fp := dup_path path len in
  let fd := c_open sys fp in
  ly_in_filepath sys (Some h) None len = Some (path_is opath, Some h, [])
  /\ (forall addr n, fd <> 0 -> fd <> -1 -> ofd <> -1 -> maps_to sys fd addr n ->
      let h' := mk_ly_in LY_IN_FILEPATH addr (func_start h) addr n (method_fpath fd fp) in
      ly_in_filepath sys (Some h) (Some path) len
      = Some (path_NULL, Some h',
              [made (ev_open fp); made (ev_mmap fd);
               made (ev_munmap (start h) (length h));
               call_close ofd; made (ev_free_path opath)])
      /\ ly_in_filepath sys (Some h') None len = Some (path_is fp, Some h', []))
  /\ (forall addr n, fd <> 0 -> fd <> -1 -> ofd = -1 -> maps_to sys fd addr n ->
      let h' := mk_ly_in LY_IN_FILEPATH addr (func_start h) addr n
                  (method_fpath fd opath) in
      ly_in_filepath sys (Some h) (Some path) len
      = Some (path_NULL, Some h',
              [made (ev_open fp); made (ev_mmap fd);
               made (ev_munmap (start h) (length h)); made (ev_free_path fp)])
      /\ ly_in_filepath sys (Some h') None len = Some (path_is opath, Some h', []))
  /\ (fd <> 0 -> fd <> -1 -> maps_nothing sys fd ->
      exists tr,
        ly_in_filepath sys (Some h) (Some path) len = Some (path_NULL, Some h, tr)
        /\ munmap_calls (events_of tr) = [] /\ closes tr = []
        /\ freed_paths (events_of tr) = [fp])
  /\ (forall g, type g <> LY_IN_FILEPATH ->
      (exists tr, ly_in_filepath sys (Some g) None len = Some (path_minus_one, Some g, tr))
      /\ (exists tr, ly_in_filepath sys (Some g) (Some path) len
                     = Some (path_NULL, Some g, tr))).
Proof.
  intros Et Em fp fd. split; [apply (filepath_asked sys h ofd opath len Et Em) |].
  split; [| split; [| split]].
  - intros addr n H0 H1 Hofd Hmap h'. split.
    + apply (filepath_replaced sys h ofd opath path len Et Em addr n H0 H1 Hofd Hmap).
    + reflexivity.
  - intros addr n H0 H1 Hofd Hmap h'. split.
    + apply (filepath_replaced_unreported sys h ofd opath path len Et Em addr n
               H0 H1 Hofd Hmap).
    + reflexivity.
  - intros H0 H1 Hno.
    apply (filepath_not_mapped sys h ofd opath path len Et Em H0 H1 Hno).
  - intros g Hg. unfold ly_in_filepath.
    destruct (type g); try contradiction; split; eexists; reflexivity.
Qed.

Lemma filepath_replaces_or_keeps_witness :
  ly_in_filepath sys_two (Some in_path3) (Some "b.lyb"%string) 0
  = Some (path_NULL,
          Some (mk_ly_in LY_IN_FILEPATH 8192 4098 8192 32 (method_fpath 5 "b.lyb")),
          [made (ev_open "b.lyb"); made (ev_mmap 5); made (ev_munmap 4096 16);
           call_close 3; made (ev_free_path "a.lyb")])
  /\ ly_in_filepath sys_two (Some in_path_closed) (Some "b.lyb"%string) 0
     = Some (path_NULL,
             Some (mk_ly_in LY_IN_FILEPATH 8192 4098 8192 32 (method_fpath 5 "a.lyb")),
             [made (ev_open "b.lyb"); made (ev_mmap 5); made (ev_munmap 4096 16);
              made (ev_free_path "b.lyb")]).
Proof.
  destruct (filepath_replaces_or_keeps sys_two in_path3 3 "a.lyb"%string
              "b.lyb"%string 0 eq_refl eq_refl) as (_ & H & _).
  destruct (filepath_replaces_or_keeps sys_two in_path_closed (-1) "a.lyb"%string
              "b.lyb"%string 0 eq_refl eq_refl) as (_ & _ & H' & _).
  split.
  - destruct (H 8192 32 ltac:(cbn; lia) ltac:(cbn; lia) ltac:(lia)
                ltac:(split; [reflexivity | discriminate])) as (E & _).
    exact E.
  - destruct (H' 8192 32 ltac:(cbn; lia) ltac:(cbn; lia) eq_refl
                ltac:(split; [reflexivity | discriminate])) as (E & _).
    exact E.
Defined.

(** X11: how [ly_in_filepath] reads the result of [open].  Descriptor 0
    is taken for a failure: the call logs an error, frees the copy of the
    path, returns [NULL] and leaves the handler as it was.  The value -1,
    with which [open] reports a failure, is not taken for one when the
    descriptor in use is not -1: the call closes the descriptor in use,
    frees the old path, stores -1 and the new path in the handler, keeps
    the old data and returns [NULL].  When the descriptor in use is -1
    itself, the -1 that [ly_in_fd] returns for it stops the call: the
    copy of the new path is freed, nothing is closed or stored, and the
    handler is as it was. *)
Theorem filepath_open_results (sys : system) (h : ly_in) (ofd : Z)
    (opath path : string) (len : Z) :
  type h = LY_IN_FILEPATH -> method h = method_fpath ofd opath ->
  let fp := dup_path path len in
  (c_open sys fp = 0 ->
     ly_in_filepath sys (Some h) (Some path) len
     = Some (path_NULL, Some h,
             [made (ev_open fp); made (ev_logerr LY_ESYS "Failed to open file.");
              made (ev_free_path fp)]))
  /\ (c_open sys fp = -1 -> ofd <> -1 ->
     ly_in_filepath sys (Some h) (Some path) len
     = Some (path_NULL,
             Some (mk_ly_in LY_IN_FILEPATH (current h) (func_start h) (start h)
                     (length h) (method_fpath (-1) fp)),
             [made (ev_open fp); call_close ofd; made (ev_free_path opath)]))
  /\ (c_open sys fp = -1 -> ofd = -1 ->
     ly_in_filepath sys (Some h) (Some path) len
     = Some (path_NULL, Some h, [made (ev_open fp); made (ev_free_path fp)])).
Proof.
  intros Et Em fp. split; [| split].
  - apply (filepath_open_zero sys h path len Et).
  - intros H1 Hofd.
    apply (filepath_open_failed sys h ofd opath path len Et Em H1 Hofd).
  - intros H1 Hofd.
    apply (filepath_open_failed_unreported sys h ofd opath path len Et Em H1 Hofd).
Qed.

Lemma filepath_open_results_witness :
  let sys := mk_system (fun _ => (LY_SUCCESS, 0, NULL)) true (fun _ => 3) (fun _ => -1) in
  ly_in_filepath sys (Some in_path3) (Some "gone.lyb"%string) 0
  = Some (path_NULL,
          Some (mk_ly_in LY_IN_FILEPATH 4100 4098 4096 16 (method_fpath (-1) "gone.lyb")),
          [made (ev_open "gone.lyb"); call_close 3; made (ev_free_path "a.lyb")])
  /\ ly_in_filepath sys (Some in_path_closed) (Some "gone.lyb"%string) 0
     = Some (path_NULL, Some in_path_closed,
             [made (ev_open "gone.lyb"); made (ev_free_path "gone.lyb")]).
Proof.
  intros sys.
  destruct (filepath_open_results sys in_path3 3 "a.lyb"%string "gone.lyb"%string 0
              eq_refl eq_refl) as (_ & H & _).
  destruct (filepath_open_results sys in_path_closed (-1) "a.lyb"%string
              "gone.lyb"%string 0 eq_refl eq_refl) as (_ & _ & H').
  split.
  - apply H; [reflexivity | lia].
  - apply H'; reflexivity.
Defined.

(** ** Freeing a handler *)

(** X12: what [ly_in_free] releases.  For a handler whose union holds the
    member its type names, it unmaps the data of a mapped handler once
    and never that of a memory handler, and it frees the handler itself
    once.  The descriptor of a file path handler is closed and its path
    freed whatever [destroy] is; the descriptor of a descriptor handler
    and the [FILE] of a file handler are closed only when [destroy] is
    set, and the string of a memory handler is freed only then.  A [NULL]
    handler releases nothing. *)
Theorem free_releases (h : ly_in) (destroy : bool) :
  typed h = true ->
  ly_in_free None destroy = Some []
  /\ exists tr,
       ly_in_free (Some h) destroy = Some tr
       /\ munmap_calls (events_of tr) = owns (Some h)
       /\ freed_handlers tr = 1%nat
       /\ closes tr
          = match type h, method_fd_of (method h) with
            | LY_IN_FILEPATH, Some fd => [fd]
            | LY_IN_FD, Some fd => if destroy then [fd] else []
            | _, _ => []
            end
       /\ fcloses tr
          = match type h, method_f_of (method h) with
            | LY_IN_FILE, Some f => if destroy then [f] else []
            | _, _ => []
            end
       /\ freed_paths (events_of tr)
          = match type h, method_filepath_of (method h) with
            | LY_IN_FILEPATH, Some p => [p]
            | _, _ => []
            end
       /\ freed_data tr
          = match type h with
            | LY_IN_MEMORY => if destroy then [start h] else []
            | _ => []
            end.
Proof.
  intros Hty. split; [reflexivity |].
  unfold typed in Hty. unfold ly_in_free, owns, mapped.
  destruct (type h) eqn:Et; destruct (method h) eqn:Em; try discriminate Hty;
    destruct destroy; cbn; eexists; (split; [reflexivity |]); cbn;
    repeat split; reflexivity.
Qed.

Lemma free_releases_witness :
  ly_in_free (Some in_path3) false
  = Some [made (ev_munmap 4096 16); call_close 3; made (ev_free_path "a.lyb");
          call_free_in]
  /\ exists tr, ly_in_free (Some in_fd3) false = Some tr /\ closes tr = [].
Proof.
  destruct (free_releases in_fd3 false eq_refl) as (_ & tr & E & _ & _ & Hc & _).
  split; [reflexivity |]. exists tr. split; [exact E | exact Hc].
Defined.

(** ** The union and the type *)

Lemma fd_outcomes (sys : system) (h : ly_in) (fd prev : Z) :
  type h = LY_IN_FD -> method_fd_of (method h) = Some prev ->
  exists r tr,
    (ly_in_fd sys (Some h) fd = Some (r, Some h, tr))
    \/ (exists addr len, ly_in_fd sys (Some h) fd
                         = Some (r, Some (remap h addr len fd), tr)).
Proof.
  intros Et Em. unfold ly_in_fd. rewrite Et, Em.
  destruct (fd =? -1); [eexists; eexists; left; reflexivity |].
  destruct (ly_mmap sys fd) as [[ret len] addr].
  destruct ret; try (eexists; eexists; left; reflexivity).
  destruct (addr =? NULL); eexists; eexists; [left | right; eexists; eexists];
    reflexivity.
Qed.

(** X13: the type of a handler always names the member its union holds.
    The creating functions make such handlers (X5), and [ly_in_fd],
    [ly_in_file], [ly_in_filepath], [ly_in_memory], [ly_in_reset],
    [ly_in_read] and [ly_in_skip] keep them so, whatever their arguments
    and whatever the system answers; on such a handler none of them, and
    not [ly_in_free] either, reads a member of the union that was not
    stored. *)
Theorem union_follows_type (sys : system) (h : ly_in) :
  typed h = true ->
  (forall fd, exists r h' tr,
     ly_in_fd sys (Some h) fd = Some (r, Some h', tr) /\ typed h' = true)
  /\ (forall f, exists r h' tr,
     ly_in_file sys (Some h) f = Some (r, Some h', tr) /\ typed h' = true)
  /\ (forall filepath len, exists r h' tr,
     ly_in_filepath sys (Some h) filepath len = Some (r, Some h', tr)
     /\ typed h' = true)
  /\ (forall str, exists r h' tr,
     ly_in_memory (Some h) str = (r, Some h', tr) /\ typed h' = true)
  /\ (forall n, typed (snd (ly_in_skip h n)) = true)
  /\ (forall mem n, typed (after_read (ly_in_read mem h n)) = true)
  /\ (exists h', ly_in_reset (Some h) = (LY_SUCCESS, Some h') /\ typed h' = true)
  /\ (forall destroy, exists tr, ly_in_free (Some h) destroy = Some tr).
Proof.
  intros Hty. pose proof Hty as Hty0.
  assert (Hskip : forall n, typed (snd (ly_in_skip h n)) = true).
  { intros n. unfold ly_in_skip. destruct (at_eof h n); exact Hty. }
  split; [| split; [| split; [| split; [| split; [| split; [| split]]]]]].
  - intros fd. unfold typed in Hty.
    destruct (type h) eqn:Et; destruct (method h) eqn:Em; try discriminate Hty;
      try (unfold ly_in_fd; rewrite Et; eexists; eexists; eexists;
           split; [reflexivity |]; exact Hty0).
    destruct (fd_outcomes sys h fd fd0 Et ltac:(rewrite Em; reflexivity))
      as (r & tr & [E | (addr & len & E)]); rewrite E; eexists; eexists; eexists;
      (split; [reflexivity |]); unfold typed; cbn [remap type method];
      rewrite Et, Em; reflexivity.
  - intros f. unfold typed in Hty.
    destruct (type h) eqn:Et; destruct (method h) eqn:Em; try discriminate Hty;
      try (unfold ly_in_file; rewrite Et; eexists; eexists; eexists;
           split; [reflexivity |]; exact Hty0).
    unfold ly_in_file. rewrite Et, Em. cbn [method_f_of].
    destruct (f =? NULL);
      [eexists; eexists; eexists; split; [reflexivity |]; exact Hty0 |].
    cbv zeta.
    destruct (fd_outcomes sys (set_type_method h LY_IN_FD
                (store_fd (method_f f0) (fileno sys f0))) (fileno sys f)
                (fileno sys f0) eq_refl eq_refl)
      as (r & tr & [E | (addr & len & E)]); rewrite E; destruct (r =? -1);
      eexists; eexists; eexists; (split; [reflexivity |]); reflexivity.
  - intros filepath len. unfold typed in Hty.
    destruct (type h) eqn:Et; destruct (method h) eqn:Em; try discriminate Hty;
      try (unfold ly_in_filepath; rewrite Et; eexists; eexists; eexists;
           split; [reflexivity |]; exact Hty0).
    unfold ly_in_filepath. rewrite Et.
    destruct filepath as [path |];
      [| rewrite Em; cbn [method_filepath_of]; eexists; eexists; eexists;
         split; [reflexivity |]; exact Hty0].
    cbv zeta. destruct (c_open sys (dup_path path len) =? 0);
      [eexists; eexists; eexists; split; [reflexivity |]; exact Hty0 |].
    destruct (fd_outcomes sys (set_type h LY_IN_FD) (c_open sys (dup_path path len)) fd
                eq_refl ltac:(cbn [method set_type set_type_method]; rewrite Em;
                              reflexivity))
      as (r & tr & [E | (addr & n & E)]); rewrite E; destruct (r =? -1);
      cbn [method remap set_type set_type_method]; rewrite ?Em;
      cbn [store_fd method_filepath_of];
      eexists; eexists; eexists; (split; [reflexivity |]);
      unfold typed; cbn [type method remap set_type set_type_method]; rewrite ?Em;
      reflexivity.
  - intros str. unfold ly_in_memory. unfold typed in Hty |- *.
    destruct (type h) eqn:Et; try discriminate Hty;
      try (eexists; eexists; eexists; split; [reflexivity |]; rewrite Et; exact Hty).
    destruct (str =? NULL); eexists; eexists; eexists; (split; [reflexivity |]);
      cbn [type method]; rewrite ?Et; reflexivity.
  - exact Hskip.
  - intros mem n. unfold ly_in_read, after_read. specialize (Hskip n).
    unfold ly_in_skip in Hskip. destruct (at_eof h n); exact Hskip.
  - eexists. split; [reflexivity |]. exact Hty.
  - intros destroy. unfold typed in Hty. unfold ly_in_free.
    destruct (type h) eqn:Et; destruct (method h) eqn:Em; try discriminate Hty;
      destruct destroy; eexists; reflexivity.
Qed.

Lemma union_follows_type_witness :
  exists r h' tr, ly_in_file sys_two (Some in_file8) 9 = Some (r, Some h', tr)
                  /\ typed h' = true.
Proof.
  destruct (union_follows_type sys_two in_file8 eq_refl) as (_ & H & _).
  exact (H 9).
Defined.

(** ** From creation to release *)

Lemma new_filepath_made (sys : system) (path : string) (len addr n : Z) :
  0 <= c_open sys (dup_path path len) -> calloc_ok sys = true ->
  maps_to sys (c_open sys (dup_path path len)) addr n ->
  ly_in_new_filepath sys (Some path) len (Some None)
  = (LY_SUCCESS,
     Some (Some (mk_ly_in LY_IN_FILEPATH addr addr addr n
                   (method_fpath (c_open sys (dup_path path len)) (dup_path path len)))),
     [ev_open (dup_path path len); ev_mmap (c_open sys (dup_path path len)); ev_calloc]).
Proof.
  intros Hfd Hc Hmap. destruct (maps_to_acquired _ _ _ _ Hmap) as (E & Hne).
  unfold ly_in_new_filepath, ly_in_new_fd. cbv zeta.
  destruct (Z.eqb_spec (c_open sys (dup_path path len)) (-1)) as [E1 | _]; [lia |].
  destruct (Z.ltb_spec (c_open sys (dup_path path len)) 0) as [Hneg | _]; [lia |].
  rewrite E, Hne, Hc. reflexivity.
Qed.

(** X14: a file path handler from creation to release.  When
    [ly_in_new_filepath] makes a handler, [ly_in_filepath] replaces its
    file and [ly_in_free] frees it, then over the three calls every
    mapping that [ly_mmap] handed out is unmapped once, every descriptor
    that was opened is closed once, both copies of the paths are freed
    and the handler is freed once, in the order in which they were
    obtained and whatever [destroy] is. *)
Theorem path_handler_lifecycle (sys : system) (p1 p2 : string)
    (l1 l2 a1 n1 a2 n2 : Z) (destroy : bool) :
  let fp1 := dup_path p1 l1 in
  let fp2 := dup_path p2 l2 in
  0 <= c_open sys fp1 -> c_open sys fp2 <> 0 -> c_open sys fp2 <> -1 ->
  calloc_ok sys = true ->
  maps_to sys (c_open sys fp1) a1 n1 -> maps_to sys (c_open sys fp2) a2 n2 ->
  exists h1 tr1 h2 tr2 tr3,
    ly_in_new_filepath sys (Some p1) l1 (Some None) = (LY_SUCCESS, Some (Some h1), tr1)
    /\ ly_in_filepath sys (Some h1) (Some p2) l2 = Some (path_NULL, Some h2, tr2)
    /\ ly_in_free (Some h2) destroy = Some tr3
    /\ munmap_calls (events_of (map made tr1 ++ tr2 ++ tr3))
       = acquired sys (events_of (map made tr1 ++ tr2 ++ tr3))
    /\ closes (map made tr1 ++ tr2 ++ tr3)
       = opens sys (events_of (map made tr1 ++ tr2 ++ tr3))
    /\ freed_paths (events_of (map made tr1 ++ tr2 ++ tr3)) = [fp1; fp2]
    /\ freed_handlers (map made tr1 ++ tr2 ++ tr3) = 1%nat.
Proof.
  intros fp1 fp2 Hfd1 Hfd2 Hfd2' Hc Hmap1 Hmap2.
  pose proof (new_filepath_made sys p1 l1 a1 n1 Hfd1 Hc Hmap1) as Enew.
  fold fp1 in Enew.
  set (h1 := mk_ly_in LY_IN_FILEPATH a1 a1 a1 n1 (method_fpath (c_open sys fp1) fp1))
    in Enew.
  assert (Hofd : c_open sys fp1 <> -1) by lia.
  pose proof (filepath_replaced sys h1 (c_open sys fp1) fp1 p2 l2 eq_refl eq_refl
                a2 n2 Hfd2 Hfd2' Hofd Hmap2) as Erep.
  fold fp2 in Erep.
  destruct (maps_to_acquired _ _ _ _ Hmap1) as (E1 & Hne1).
  destruct (maps_to_acquired _ _ _ _ Hmap2) as (E2 & Hne2).
  eexists. eexists. eexists. eexists. eexists.
  split; [exact Enew |]. split; [exact Erep |]. split; [reflexivity |].
  cbn [map app events_of munmap_calls acquired closes opens freed_paths freed_handlers
       start length h1].
  unfold acquired_at. rewrite E1, E2, Hne1, Hne2.
  repeat split; reflexivity.
Qed.

Lemma path_handler_lifecycle_witness :
  exists tr3,
    ly_in_free (Some (mk_ly_in LY_IN_FILEPATH 8192 8192 8192 32 (method_fpath 5 "b.lyb")))
      true = Some tr3
    /\ closes tr3 = [5].
Proof.
  destruct (path_handler_lifecycle sys_two "a.lyb"%string "b.lyb"%string 0 0
              8192 32 8192 32 true ltac:(cbn; lia) ltac:(cbn; lia) ltac:(cbn; lia)
              eq_refl ltac:(split; [reflexivity | discriminate])
              ltac:(split; [reflexivity | discriminate]))
    as (h1 & tr1 & h2 & tr2 & tr3 & Enew & Erep & Efree & _).
  cbn in Enew. injection Enew as <- <-.
  cbn in Erep. injection Erep as <- <-.
  exists tr3. split; [exact Efree |].
  cbn in Efree. injection Efree as <-. reflexivity.
Defined.

End LyInOpsFacts.

Module LydParserMoreFacts.

Import LydParser LydParserFacts.

Section Creation.

Context {F : header_flags}.
Variable lyd_create_term : lysc_node -> value_args -> LY_ERR * bool * Z.
Variable lyd_create_meta : Z -> option Z -> Z -> string -> Z -> value_args -> LY_ERR * bool * Z.
Variable grow_ok : bool.

(** ** Creating values: what happens to the context *)

(** The context afterwards is the context before, or the context before
    with one object appended to one of the two sets. *)
Lemma create_term_context (lydctx : lyd_ctx) (schema : lysc_node) (a : value_args) :
  let r := lyd_parser_create_term lyd_create_term grow_ok schema a lydctx in
  (snd r = lydctx /\ (fst (fst r) = fst (fst (lyd_create_term schema a))
                      \/ fst (fst r) = LY_EMEM))
  \/ (fst (fst r) = LY_SUCCESS
      /\ snd r = set_node_types lydctx (node_types lydctx ++ [snd (fst r)])).
Proof.
  unfold lyd_parser_create_term, bind, gets, modify, pure, ly_set_add.
  destruct (lyd_create_term schema a) as [[ret inc] node].
  destruct ret; cbn [fst snd]; auto.
  destruct inc, (flag_set (parse_options lydctx) LYD_PARSE_ONLY), grow_ok;
    cbn [fst snd andb negb]; auto.
Qed.

Lemma create_meta_context (lydctx : lyd_ctx) (parent : Z) (meta : option Z) (mod_ : Z)
    (name_ : string) (name_len : Z) (a : value_args) :
  let r := lyd_parser_create_meta lyd_create_meta grow_ok parent meta mod_ name_ name_len
             a lydctx in
  snd r = lydctx
  \/ (exists cell, fst r = Some (LY_SUCCESS, cell)
      /\ snd r = set_meta_types lydctx
                   (meta_types lydctx
                    ++ [snd (lyd_create_meta parent meta mod_ name_ name_len a)])).
Proof.
  unfold lyd_parser_create_meta, bind, gets, modify, pure, ly_set_add.
  destruct (lyd_create_meta parent meta mod_ name_ name_len a) as [[ret inc] created].
  destruct ret; cbn [fst snd]; auto.
  destruct inc, (flag_set (parse_options lydctx) LYD_PARSE_ONLY), grow_ok, meta;
    cbn [fst snd andb negb option_map]; eauto.
Qed.

(** X15: [lyd_parser_create_term] and [lyd_parser_create_meta] only ever
    append to the sets of deferred items.  Whatever value creation
    answers and whether or not the set can grow, the options, the
    operation node and the set of [when] nodes stay as they were, the
    term function leaves the metadata set alone and the metadata function
    the node set, and the set a function works on keeps its entries in
    their order and gains at most one.  When the function does not
    return [LY_SUCCESS], the context is exactly as before. *)
Theorem creation_only_appends (lydctx : lyd_ctx) (schema : lysc_node)
    (parent : Z) (meta : option Z) (mod_ : Z) (name_ : string) (name_len : Z)
    (a : value_args) :
  let t := lyd_parser_create_term lyd_create_term grow_ok schema a lydctx in
  let m := lyd_parser_create_meta lyd_create_meta grow_ok parent meta mod_ name_ name_len
             a lydctx in
  (parse_options (snd t) = parse_options lydctx /\ int_opts (snd t) = int_opts lydctx
   /\ op_node (snd t) = op_node lydctx /\ node_when (snd t) = node_when lydctx
   /\ meta_types (snd t) = meta_types lydctx
   /\ (exists l, node_types (snd t) = node_types lydctx ++ l /\ (List.length l <= 1)%nat)
   /\ (fst (fst t) <> LY_SUCCESS -> snd t = lydctx))
  /\ (parse_options (snd m) = parse_options lydctx /\ int_opts (snd m) = int_opts lydctx
   /\ op_node (snd m) = op_node lydctx /\ node_when (snd m) = node_when lydctx
   /\ node_types (snd m) = node_types lydctx
   /\ (exists l, meta_types (snd m) = meta_types lydctx ++ l /\ (List.length l <= 1)%nat)
   /\ (forall e cell, fst m = Some (e, cell) -> e <> LY_SUCCESS -> snd m = lydctx)).
Proof.
  intros t m. split.
  - destruct (create_term_context lydctx schema a) as [(E & _) | (Eret & E)];
      fold t in E; rewrite E.
    + repeat split; try reflexivity. exists []. rewrite app_nil_r. auto.
    + fold t in Eret. cbn [set_node_types parse_options int_opts op_node node_when
        meta_types node_types].
      repeat split; try reflexivity.
      * eexists. split; [reflexivity |]. cbn. lia.
      * intros Hne. contradiction.
  - destruct (create_meta_context lydctx parent meta mod_ name_ name_len a)
      as [E | (cell & Eret & E)]; fold m in E; rewrite E.
    + repeat split; try reflexivity. exists []. rewrite app_nil_r. auto.
    + fold m in Eret. cbn [set_meta_types parse_options int_opts op_node node_when
        meta_types node_types].
      repeat split; try reflexivity.
      * eexists. split; [reflexivity |]. cbn. lia.
      * intros e c Em Hne. rewrite Eret in Em. injection Em as <- _. contradiction.
Qed.

(** ** Creating metadata: the caller's cell *)

(** X16: what [lyd_parser_create_meta] does with [*meta].  The cell that
    held metadata before a successful call holds the same, first,
    metadata afterwards; a cell that held [NULL] holds the created
    metadata.  When putting the metadata in the set fails, the cell is
    left holding the created metadata, first or not.  With a [NULL]
    [meta] the function reads [*meta] through the [NULL] pointer exactly
    when creation succeeds with an incomplete value and parsing is not
    parse-only. *)
Theorem meta_cell_after (lydctx : lyd_ctx) (parent : Z) (meta : option Z) (mod_ : Z)
    (name_ : string) (name_len : Z) (a : value_args) (incomplete : bool) (created : Z) :
  lyd_create_meta parent meta mod_ name_ name_len a = (LY_SUCCESS, incomplete, created) ->
  let r := fst (lyd_parser_create_meta lyd_create_meta grow_ok parent meta mod_ name_
                  name_len a lydctx) in
  (forall m, meta = Some m -> incomplete && deferring lydctx = false \/ grow_ok = true ->
     r = Some (LY_SUCCESS, Some (if m =? NULL then created else m)))
  /\ (forall m, meta = Some m -> incomplete && deferring lydctx = true ->
      grow_ok = false -> r = Some (LY_EMEM, Some created))
  /\ (meta = None ->
      (r = None <-> incomplete && deferring lydctx = true)
      /\ (incomplete && deferring lydctx = false -> r = Some (LY_SUCCESS, None))).
Proof.
  intros E r. subst r.
  unfold lyd_parser_create_meta, deferring, bind, gets, modify, pure, ly_set_add.
  rewrite E. split; [| split].
  - intros m -> Hcase. cbn [option_map].
    destruct incomplete, (flag_set (parse_options lydctx) LYD_PARSE_ONLY), grow_ok,
      (m =? NULL); cbn [fst snd andb negb] in *; try reflexivity;
      destruct Hcase; discriminate.
  - intros m -> Hinc ->. cbn [option_map].
    destruct incomplete, (flag_set (parse_options lydctx) LYD_PARSE_ONLY);
      cbn [fst snd andb negb] in *; try discriminate; reflexivity.
  - intros ->. cbn [option_map].
    destruct incomplete, (flag_set (parse_options lydctx) LYD_PARSE_ONLY);
      cbn [fst snd andb negb Z.eqb NULL]; split; try split; intros; try reflexivity;
      try discriminate.
Qed.

(** ** One operation for each parse *)

(** X17: once an operation node has been parsed, [lyd_parser_check_schema]
    rejects every RPC, action and notification, whatever mode was asked
    for; and a node that is none of them is never rejected by the
    operation tests, whatever the mode and the operation node. *)
Theorem one_operation_per_parse (lydctx : lyd_ctx) (snode : lysc_node) :
  (op_parsed lydctx -> rpc_or_action snode \/ notification snode ->
     lyd_parser_check_schema snode lydctx = (LY_EVALID, lydctx))
  /\ (~ rpc_or_action snode -> ~ notification snode ->
     check_operation lydctx snode = LY_SUCCESS
     /\ lyd_parser_check_schema snode lydctx
        = (if state_rejected lydctx snode then LY_EVALID else LY_SUCCESS, lydctx)).
Proof.
  split.
  - intros Hop Hnode. apply op_parsed_test in Hop.
    assert (Hv : check_operation lydctx snode = LY_EVALID).
    { unfold check_operation. rewrite Hop.
      destruct Hnode as [Hra | Hnt].
      - apply rpc_or_action_test in Hra. rewrite Hra.
        destruct (flag_set (int_opts lydctx) _); reflexivity.
      - apply notification_test in Hnt. rewrite Hnt.
        destruct (flag_set (nodetype snode) _);
          destruct (flag_set (int_opts lydctx) _);
          try destruct (flag_set (int_opts lydctx) LYD_INTOPT_NOTIF); reflexivity. }
    unfold lyd_parser_check_schema, bind, gets, pure.
    destruct (state_rejected lydctx snode); [reflexivity | rewrite Hv; reflexivity].
  - intros Hra Hnt. rewrite rpc_or_action_test in Hra. rewrite notification_test in Hnt.
    apply not_true_false in Hra. apply not_true_false in Hnt.
    assert (Hv : check_operation lydctx snode = LY_SUCCESS).
    { unfold check_operation. rewrite Hra, Hnt. reflexivity. }
    split; [exact Hv |].
    unfold lyd_parser_check_schema, bind, gets, pure.
    destruct (state_rejected lydctx snode); [reflexivity | rewrite Hv; reflexivity].
Qed.

End Creation.

Lemma creation_only_appends_witness :
  let c := mk_lyd_ctx 0 0 0 [11; 12] [21] [] in
  let leaf := mk_lysc_node 4 0 "target" in
  node_types (snd (@lyd_parser_create_term sample_flags create_term_incomplete true
                     leaf leaf_ref_args c)) = [11; 12; 77]
  /\ forall e cell,
       fst (@lyd_parser_create_meta sample_flags create_meta_incomplete false
              0 (Some NULL) 0 "ref" 3 leaf_ref_args c) = Some (e, cell) ->
       e <> LY_SUCCESS ->
       snd (@lyd_parser_create_meta sample_flags create_meta_incomplete false
              0 (Some NULL) 0 "ref" 3 leaf_ref_args c) = c.
Proof.
  intros c leaf.
  destruct (@creation_only_appends sample_flags create_term_incomplete
              create_meta_incomplete false c leaf 0 (Some NULL) 0 "ref"%string 3
              leaf_ref_args) as (_ & _ & _ & _ & _ & _ & _ & Hm).
  split; [reflexivity | exact Hm].
Defined.

Lemma meta_cell_after_witness :
  fst (@lyd_parser_create_meta sample_flags create_meta_incomplete true
         0 (Some 55) 0 "ref" 3 leaf_ref_args (ctx_of_options 0 0 0))
  = Some (LY_SUCCESS, Some 55)
  /\ fst (@lyd_parser_create_meta sample_flags create_meta_incomplete true
         0 None 0 "ref" 3 leaf_ref_args (ctx_of_options 0 0 0)) = None.
Proof.
  destruct (@meta_cell_after sample_flags create_meta_incomplete true
              (ctx_of_options 0 0 0) 0 (Some 55) 0 "ref"%string 3 leaf_ref_args
              true 78 eq_refl) as (H1 & _).
  destruct (@meta_cell_after sample_flags create_meta_incomplete true
              (ctx_of_options 0 0 0) 0 None 0 "ref"%string 3 leaf_ref_args
              true 78 eq_refl) as (_ & _ & H3).
  split.
  - apply (H1 55 eq_refl). right. reflexivity.
  - destruct (H3 eq_refl) as ((_ & Hn) & _). apply Hn. reflexivity.
Defined.

Lemma one_operation_per_parse_witness :
  @lyd_parser_check_schema sample_flags (mk_lysc_node 1024 0 "alarm")
    (ctx_of_options 0 2 77)
  = (LY_EVALID, ctx_of_options 0 2 77).
Proof.
  destruct (@one_operation_per_parse sample_flags (ctx_of_options 0 2 77)
              (mk_lysc_node 1024 0 "alarm")) as (H & _).
  apply H.
  - unfold op_parsed, NULL. cbn. discriminate.
  - right. reflexivity.
Defined.

End LydParserMoreFacts.

Module LyInPathFacts.

Import LyIn LyInOps LyInPath.

(** ** The text of a descriptor *)

Lemma string_length_app (s1 s2 : string) :
  String.length (s1 ++ s2) = (String.length s1 + String.length s2)%nat.
Proof. induction s1 as [| c s1 IH]; [reflexivity |]. cbn. rewrite IH. reflexivity. Qed.

Lemma number_from_app (s1 s2 : string) :
  forall acc, number_from acc (s1 ++ s2) = number_from (number_from acc s1) s2.
Proof. induction s1 as [| c s1 IH]; intros acc; [reflexivity |]. cbn. apply IH. Qed.

Lemma digit_value (d : Z) : 0 <= d < 10 -> Z.of_nat (nat_of_ascii (digit d)) - 48 = d.
Proof.
  intros Hd. unfold digit. rewrite nat_ascii_embedding by lia. lia.
Qed.

Lemma tenth_smaller (n k : Z) : 1 <= k -> 10 <= n < 10 ^ k -> 0 <= n / 10 < 10 ^ (k - 1).
Proof.
  intros Hk Hn. split; [apply Z.div_pos; lia |].
  apply Z.div_lt_upper_bound; [lia |].
  replace (10 * 10 ^ (k - 1)) with (10 ^ 1 * 10 ^ (k - 1)) by reflexivity.
  rewrite <- Z.pow_add_r by lia. replace (1 + (k - 1)) with k by lia. lia.
Qed.

(** The digits are at most as many as the powers of ten the value stays
    below. *)
Lemma digits_length (fuel : nat) :
  forall n k, 1 <= k -> 0 <= n < 10 ^ k ->
  Z.of_nat (String.length (digits fuel n)) <= k.
Proof.
  induction fuel as [| fuel IH]; intros n k Hk Hn; [cbn; lia |].
  cbn [digits]. destruct (Z.ltb_spec n 10) as [Hlt | Hge]; [cbn; lia |].
  rewrite string_length_app. cbn [String.length].
  assert (Hk2 : 2 <= k).
  { destruct (Z.eq_dec k 1) as [-> | Hne]; [| lia]. cbn in Hn. lia. }
  pose proof (tenth_smaller n k Hk (conj Hge (proj2 Hn))) as Hq.
  specialize (IH (n / 10) (k - 1) ltac:(lia) Hq). lia.
Qed.

(** With enough fuel the digits denote the value. *)
Lemma digits_number (fuel : nat) :
  forall n, 0 <= n < 10 ^ Z.of_nat fuel -> number (digits fuel n) = n.
Proof.
  unfold number. induction fuel as [| fuel IH]; intros n Hn.
  - cbn in Hn. cbn. lia.
  - cbn [digits]. destruct (Z.ltb_spec n 10) as [Hlt | Hge].
    + cbn [number_from]. rewrite digit_value by lia. lia.
    + rewrite number_from_app. cbn [number_from].
      assert (Hq : 0 <= n / 10 < 10 ^ Z.of_nat fuel).
      { replace (Z.of_nat fuel) with (Z.of_nat (S fuel) - 1) by lia.
        apply tenth_smaller; lia. }
      rewrite (IH _ Hq).
      rewrite digit_value by (apply Z.mod_pos_bound; lia).
      pose proof (Z.div_mod n 10 ltac:(lia)). lia.
Qed.

Lemma decimal_number (n : Z) : 0 <= n -> number (decimal n) = n.
Proof.
  intros Hn. unfold decimal. apply digits_number. split; [exact Hn |].
  destruct (Z.eq_dec n 0) as [-> | Hne]; [reflexivity |].
  pose proof (Z.log2_spec n ltac:(lia)) as (_ & Hup).
  pose proof (Z.log2_nonneg n) as Hlog.
  replace (Z.of_nat (S (Z.to_nat (Z.log2 n)))) with (Z.succ (Z.log2 n)) by lia.
  apply Z.lt_le_trans with (1 := Hup).
  apply Z.pow_le_mono_l. lia.
Qed.

(** X18: the text that [lys_parser_fill_filepath] writes into
    [proc_path] fits the 32 bytes of that buffer for every [int]
    descriptor: "/proc/self/fd/", an optional minus sign and the decimal
    digits that denote the descriptor take, with the terminating NUL, at
    most 26 bytes. *)
Theorem proc_path_fits (fd : Z) :
  is_int fd ->
  Z.of_nat (String.length (proc_path_of fd)) + 1 <= 26
  /\ Z.of_nat (String.length (proc_path_of fd)) + 1 <= PROC_PATH_SIZE
  /\ number (decimal (Z.abs fd)) = Z.abs fd
  /\ proc_path_of fd
     = ("/proc/self/fd/" ++ (if (fd <? 0)%Z then "-" else "") ++ decimal (Z.abs fd))%string.
Proof.
  unfold is_int, INT_MIN, INT_MAX. intros Hfd.
  assert (Hlen : forall n, 0 <= n <= 2 ^ 31 ->
            Z.of_nat (String.length (decimal n)) <= 10).
  { intros n Hn. apply digits_length; [lia |].
    split; [lia |]. apply Z.le_lt_trans with (m := 2 ^ 31); [lia | reflexivity]. }
  assert (Hfit : Z.of_nat (String.length (proc_path_of fd)) + 1 <= 26).
  { unfold proc_path_of, format_d. rewrite string_length_app.
    change (String.length "/proc/self/fd/") with 14%nat.
    destruct (Z.ltb_spec fd 0) as [Hneg | Hpos].
    - cbn [String.length]. specialize (Hlen (- fd) ltac:(lia)). lia.
    - specialize (Hlen fd ltac:(lia)). lia. }
  split; [exact Hfit |]. split; [unfold PROC_PATH_SIZE; lia |]. split.
  - apply decimal_number. lia.
  - unfold proc_path_of, format_d.
    destruct (Z.ltb_spec fd 0) as [Hneg | Hpos].
    + rewrite Z.abs_neq by lia. reflexivity.
    + rewrite Z.abs_eq by lia. reflexivity.
Qed.

Lemma proc_path_fits_witness :
  proc_path_of (-2147483648) = "/proc/self/fd/-2147483648"%string
  /\ Z.of_nat (String.length (proc_path_of (-2147483648))) + 1 <= 26.
Proof.
  destruct (proc_path_fits (-2147483648)
              ltac:(unfold is_int, INT_MIN, INT_MAX; lia)) as (H & _).
  split; [reflexivity | exact H].
Defined.

(** ** Filling the path *)

(** X19: [lys_parser_fill_filepath] fills the path at most once.  A path
    that is set is never replaced; handlers over memory and over a [FILE]
    never get a path; and filling again after a call gives what the first
    call gave. *)
Theorem fill_filepath_once (ps : path_system) (ctx : Z) (i : option ly_in)
    (cell r : option string) :
  lys_parser_fill_filepath ps ctx i (Some cell) = Some r ->
  (cell <> None -> r = cell)
  /\ (forall h, i = Some h -> type h = LY_IN_MEMORY \/ type h = LY_IN_FILE -> r = cell)
  /\ lys_parser_fill_filepath ps ctx i (Some r) = Some r.
Proof.
  unfold lys_parser_fill_filepath. intros H.
  destruct (ctx =? NULL); [injection H as <-; repeat split |].
  destruct i as [h |]; [| injection H as <-; repeat split; intros; discriminate].
  destruct cell as [set |]; [injection H as <-; repeat split |].
  split; [intros Hne; contradiction |].
  destruct (type h) eqn:Et.
  - injection H as <-. split; [reflexivity | reflexivity].
  - destruct (method_fd_of (method h)) as [fd |]; [| discriminate H].
    destruct (readlink ps (proc_path_of fd) (PATH_MAX ps - 1)) as [len path].
    split; [intros h0 E [Hm | Hf]; injection E as <-; congruence |].
    destruct (0 <? len); injection H as <-; [| reflexivity].
    destruct (lydict_insert ps path len); reflexivity.
  - injection H as <-. split; reflexivity.
  - destruct (method_filepath_of (method h)) as [p |]; [| discriminate H].
    split; [intros h0 E [Hm | Hf]; injection E as <-; congruence |].
    destruct (realpath ps p); injection H as <-;
      match goal with |- context [lydict_insert ps ?x 0] =>
        destruct (lydict_insert ps x 0) end; reflexivity.
  - injection H as <-. split; reflexivity.
Qed.

Lemma fill_filepath_once_witness :
  let ps := mk_path_system (fun p => Some ("/data/" ++ p)%string)
              (fun _ _ => (-1, ""%string)) (fun s _ => Some s) 4096 in
  lys_parser_fill_filepath ps 1 (Some in_path3) (Some None) = Some (Some "/data/a.lyb"%string)
  /\ lys_parser_fill_filepath ps 1 (Some in_path3) (Some (Some "/data/a.lyb"%string))
     = Some (Some "/data/a.lyb"%string).
Proof.
  intros ps.
  destruct (fill_filepath_once ps 1 (Some in_path3) None (Some "/data/a.lyb"%string)
              eq_refl) as (_ & _ & H).
  split; [reflexivity | exact H].
Defined.

End LyInPathFacts.
